(** * Birthday reminder bot: a shallow embedding of [bot.py] and [db.py]

    The development follows the two source files.

    - [py] holds the few Python built-ins the bot relies on ([str.strip],
      [str.split], [int], [str], the [:02d] format).
    - [datetime] holds the part of Python's [datetime] module the bot uses:
      the [date] constructor with its range checks, ordering, subtraction
      and [strptime] for the one format ["%Y-%m-%d"].
    - [db] is [db.py]: the [birthdays] table and the six statements run
      against it.
    - [bot] is [bot.py]: [parse_date], [next_occurrence], [format_bday],
      [reminder_text] and the daily sweep [daily_check].

    Text is a [string] of bytes; the characters of a Python [str] beyond
    ASCII appear as their UTF-8 bytes, which is also how SQLite stores
    and compares them.  The Python text functions are modelled exactly on
    ASCII input: no byte above 127 counts as white space or as a digit.

    An exception is a value: a computation that can raise returns a
    [result]. *)

From Stdlib Require Import ZArith List String Ascii Bool Lia.
From Stdlib Require Import Permutation Sorted.
Import ListNotations.

Local Open Scope string_scope.
Local Open Scope list_scope.
Local Open Scope Z_scope.

Infix "+++" := String.append (right associativity, at level 60).

(** ** Exceptions *)

Inductive exn : Type :=
| ValueError
| OverflowError.

Inductive result (A : Type) : Type :=
| Ok (a : A)
| Raise (e : exn).

Arguments Ok {A} a.
Arguments Raise {A} e.

Definition bind {A B : Type} (m : result A) (k : A -> result B) : result B :=
  match m with
  | Ok a => k a
  | Raise e => Raise e
  end.

Notation "x <- m ;; k" := (bind m (fun x => k))
  (at level 61, m at next level, right associativity).

(** ** Python built-ins *)

Module py.

Definition ord (c : ascii) : Z := Z.of_N (N_of_ascii c).

(** [str.isspace] on one character, ASCII range: tab, line feed,
    vertical tab, form feed, carriage return, the four separators
    0x1c..0x1f and the space. *)
Definition isspace (c : ascii) : bool :=
  let n := ord c in
  ((9 <=? n) && (n <=? 13)) || ((28 <=? n) && (n <=? 32)).

Definition isdigit (c : ascii) : bool :=
  let n := ord c in (48 <=? n) && (n <=? 57).

Definition digit_value (c : ascii) : Z := ord c - 48.

Fixpoint lstrip (s : string) : string :=
  match s with
  | EmptyString => EmptyString
  | String c r => if isspace c then lstrip r else s
  end.

Fixpoint rstrip (s : string) : string :=
  match s with
  | EmptyString => EmptyString
  | String c r =>
      match rstrip r with
      | EmptyString => if isspace c then EmptyString else String c EmptyString
      | r' => String c r'
      end
  end.

(** [s.strip()] *)
Definition strip (s : string) : string := rstrip (lstrip s).

(** [s.split(sep)] for a separator of one character, the only way the
    bot calls it.  The result is never empty: a string without the
    separator comes back as its only element. *)
Fixpoint split (sep : ascii) (s : string) : list string :=
  match s with
  | EmptyString => [EmptyString]
  | String c r =>
      if Ascii.eqb c sep then EmptyString :: split sep r
      else match split sep r with
           | h :: t => String c h :: t
           | [] => [String c EmptyString]
           end
  end.

(** The digits of an [int] literal: decimal digits, with single
    underscores allowed between two digits.  [prev_us] tells that the
    previous character was an underscore; the result is the value and
    the number of digits read. *)
Fixpoint int_digits (prev_us : bool) (acc n : Z) (s : string)
  : option (Z * Z) :=
  match s with
  | EmptyString => if prev_us then None else Some (acc, n)
  | String c r =>
      if isdigit c then int_digits false (10 * acc + digit_value c) (n + 1) r
      else if Ascii.eqb c "_" then
        if prev_us then None else int_digits true acc n r
      else None
  end.

(** [sys.get_int_max_str_digits()], the default. *)
Definition int_max_str_digits : Z := 4300.

(** [Py_ISSPACE], the white space [int] skips around the digits of an
    ASCII text: tab, line feed, vertical tab, form feed, carriage
    return and the space.  The separators 0x1c..0x1f, which
    [str.strip] drops, are not among them. *)
Definition isspace_c (c : ascii) : bool :=
  let n := ord c in ((9 <=? n) && (n <=? 13)) || (n =? 32).

Fixpoint lstrip_c (s : string) : string :=
  match s with
  | EmptyString => EmptyString
  | String c r => if isspace_c c then lstrip_c r else s
  end.

Fixpoint rstrip_c (s : string) : string :=
  match s with
  | EmptyString => EmptyString
  | String c r =>
      match rstrip_c r with
      | EmptyString => if isspace_c c then EmptyString else String c EmptyString
      | r' => String c r'
      end
  end.

(** [int(s)] on a string, base 10: the white space of C around the
    number is dropped, one sign is allowed, the digits must start with
    a digit. *)
Definition int (s : string) : result Z :=
  let s := rstrip_c (lstrip_c s) in
  let '(neg, body) :=
    match s with
    | String "+" r => (false, r)
    | String "-" r => (true, r)
    | _ => (false, s)
    end in
  match body with
  | EmptyString => Raise ValueError
  | String c _ =>
      if isdigit c then
        match int_digits false 0 0 body with
        | Some (v, n) =>
            if int_max_str_digits <? n then Raise ValueError
            else Ok (if neg then - v else v)
        | None => Raise ValueError
        end
      else Raise ValueError
  end.

Definition digit_char (d : Z) : ascii := ascii_of_N (Z.to_N (48 + d)).

Fixpoint digits_of (fuel : nat) (n : Z) (acc : string) : string :=
  match fuel with
  | O => acc
  | S f =>
      let acc' := String (digit_char (n mod 10)) acc in
      if n <? 10 then acc' else digits_of f (n / 10) acc'
  end.

(** [str(n)] on an integer. *)
Definition str (n : Z) : string :=
  if n <? 0
  then String "-" (digits_of (S (Z.to_nat (Z.log2 (- n)))) (- n) EmptyString)
  else digits_of (S (Z.to_nat (Z.log2 n))) n EmptyString.

Definition len (s : string) : Z := Z.of_nat (String.length s).

Fixpoint zeros (k : nat) : string :=
  match k with
  | O => EmptyString
  | S k' => String "0" (zeros k')
  end.

(** [format(n, "02d")]: zeros are put between the sign and the digits
    until the whole is two characters wide. *)
Definition format_02d (n : Z) : string :=
  match str n with
  | String "-" ds => String "-" (zeros (Z.to_nat (1 - len ds)) +++ ds)
  | ds => zeros (Z.to_nat (2 - len ds)) +++ ds
  end.

(** [x == y] on two values that are [None] or an integer. *)
Definition opt_eqb (x y : option Z) : bool :=
  match x, y with
  | Some a, Some b => a =? b
  | None, None => true
  | _, _ => false
  end.

(** Every character of [s] is white space. *)
Fixpoint blank (s : string) : bool :=
  match s with
  | EmptyString => true
  | String c r => isspace c && blank r
  end.

(** [sep.join(parts)] *)
Fixpoint join (sep : string) (parts : list string) : string :=
  match parts with
  | [] => EmptyString
  | [p] => p
  | p :: ps => p +++ sep +++ join sep ps
  end.

(** The line feed, written [\n] in the source. *)
Definition nl : string := String (ascii_of_N 10) EmptyString.

End py.

(** ** The [datetime] module *)

Module datetime.

Definition MINYEAR : Z := 1.
Definition MAXYEAR : Z := 9999.

(** The constructor is written in C and reads its arguments as C
    [int]s. *)
Definition INT_MIN : Z := - 2 ^ 31.
Definition INT_MAX : Z := 2 ^ 31 - 1.

Definition fits_int (n : Z) : bool := (INT_MIN <=? n) && (n <=? INT_MAX).

Record date : Type := mk { year : Z; month : Z; day : Z }.

Definition is_leap (y : Z) : bool :=
  (y mod 4 =? 0) && (negb (y mod 100 =? 0) || (y mod 400 =? 0)).

Definition DAYS_IN_MONTH : list Z :=
  [-1; 31; 28; 31; 30; 31; 30; 31; 31; 30; 31; 30; 31].

Definition DAYS_BEFORE_MONTH : list Z :=
  [-1; 0; 31; 59; 90; 120; 151; 181; 212; 243; 273; 304; 334].

Definition days_in_month (y m : Z) : Z :=
  if (m =? 2) && is_leap y then 29
  else nth (Z.to_nat m) DAYS_IN_MONTH 0.

Definition days_before_year (y : Z) : Z :=
  let y' := y - 1 in y' * 365 + y' / 4 - y' / 100 + y' / 400.

Definition days_before_month (y m : Z) : Z :=
  nth (Z.to_nat m) DAYS_BEFORE_MONTH 0
  + (if (2 <? m) && is_leap y then 1 else 0).

(** [date(year, month, day)] *)
Definition date_new (y m d : Z) : result date :=
  if negb (fits_int y && fits_int m && fits_int d) then Raise OverflowError
  else if negb ((MINYEAR <=? y) && (y <=? MAXYEAR)) then Raise ValueError
  else if negb ((1 <=? m) && (m <=? 12)) then Raise ValueError
  else if negb ((1 <=? d) && (d <=? days_in_month y m)) then Raise ValueError
  else Ok (mk y m d).

(** What the constructor accepts, as a proposition on a [date] value. *)
Definition valid (t : date) : Prop :=
  date_new (year t) (month t) (day t) = Ok t.

Definition toordinal (t : date) : Z :=
  days_before_year (year t) + days_before_month (year t) (month t) + day t.

(** [a >= b]: dates compare as the triples (year, month, day). *)
Definition ge (a b : date) : bool :=
  if year a =? year b then
    if month a =? month b then day b <=? day a
    else month b <? month a
  else year b <? year a.

(** [(a - b).days] *)
Definition sub_days (a b : date) : Z := toordinal a - toordinal b.

(** The regular expression [strptime] builds for [%m], as the list of
    its matches at the head of [s] in the order the alternatives
    [1[0-2]|0[1-9]|[1-9]] are tried: the value read and the rest. *)
Definition match_m (s : string) : list (Z * string) :=
  match s with
  | EmptyString => []
  | String a r =>
      let two :=
        match r with
        | String b r' =>
            (if Ascii.eqb a "1" && (48 <=? py.ord b) && (py.ord b <=? 50)
             then [(10 + py.digit_value b, r')] else [])
            ++ (if Ascii.eqb a "0" && (49 <=? py.ord b) && (py.ord b <=? 57)
                then [(py.digit_value b, r')] else [])
        | EmptyString => []
        end in
      two ++ (if (49 <=? py.ord a) && (py.ord a <=? 57)
              then [(py.digit_value a, r)] else [])
  end.

(** The same for [%d]: [3[0-1]|[1-2]\d|0[1-9]|[1-9]| [1-9]]. *)
Definition match_d (s : string) : list (Z * string) :=
  match s with
  | EmptyString => []
  | String a r =>
      let two :=
        match r with
        | String b r' =>
            (if Ascii.eqb a "3" && (48 <=? py.ord b) && (py.ord b <=? 49)
             then [(30 + py.digit_value b, r')] else [])
            ++ (if (49 <=? py.ord a) && (py.ord a <=? 50) && py.isdigit b
                then [(10 * py.digit_value a + py.digit_value b, r')] else [])
            ++ (if Ascii.eqb a "0" && (49 <=? py.ord b) && (py.ord b <=? 57)
                then [(py.digit_value b, r')] else [])
        | EmptyString => []
        end in
      let one :=
        if (49 <=? py.ord a) && (py.ord a <=? 57)
        then [(py.digit_value a, r)] else [] in
      let blank :=
        match r with
        | String b r' =>
            if Ascii.eqb a " " && (49 <=? py.ord b) && (py.ord b <=? 57)
            then [(py.digit_value b, r')] else []
        | EmptyString => []
        end in
      two ++ one ++ blank
  end.

(** [%Y] is [\d\d\d\d]. *)
Definition match_Y (s : string) : option (Z * string) :=
  match s with
  | String a (String b (String c (String d r))) =>
      if py.isdigit a && py.isdigit b && py.isdigit c && py.isdigit d
      then Some (1000 * py.digit_value a + 100 * py.digit_value b
                 + 10 * py.digit_value c + py.digit_value d, r)
      else None
  | _ => None
  end.

Definition match_dash (s : string) : option string :=
  match s with
  | String "-" r => Some r
  | _ => None
  end.

(** The first way to match [-%d] after a month was read: the regular
    expression engine takes the first alternative of [%d] that fits
    (nothing follows it in the pattern). *)
Definition match_tail (s : string) : option (Z * string) :=
  match match_dash s with
  | Some r => hd_error (match_d r)
  | None => None
  end.

(** The month alternatives are tried in order; one is kept when the
    rest of the pattern matches after it. *)
Fixpoint first_month (ms : list (Z * string)) : option (Z * Z * string) :=
  match ms with
  | [] => None
  | (m, r) :: ms' =>
      match match_tail r with
      | Some (d, rest) => Some (m, d, rest)
      | None => first_month ms'
      end
  end.

(** [datetime.strptime(s, "%Y-%m-%d").date()]: the pattern must match
    at the start of [s], nothing may remain after the match, and the
    three numbers must form a date. *)
Definition strptime_Ymd (s : string) : result date :=
  match match_Y s with
  | None => Raise ValueError
  | Some (y, r) =>
      match match_dash r with
      | None => Raise ValueError
      | Some r1 =>
          match first_month (match_m r1) with
          | None => Raise ValueError
          | Some (m, d, rest) =>
              match rest with
              | EmptyString =>
                  match date_new y m d with
                  | Ok t => Ok t
                  | Raise _ => Raise ValueError
                  end
              | _ => Raise ValueError
              end
          end
      end
  end.

(** [t.strftime("%d.%m")] *)
Definition strftime_dm (t : date) : string :=
  py.format_02d (day t) +++ "." +++ py.format_02d (month t).

End datetime.

(** ** [db.py]: the [birthdays] table *)

Module db.

(** One row of
    [birthdays(id, user_id, name, day, month, year, last_notified_year)]. *)
Record row : Type := mk_row {
  id : Z;
  user_id : Z;
  name : string;
  day : Z;
  month : Z;
  year : option Z;
  last_notified_year : option Z
}.

(** The database file: the rows of the table in rowid order, and the
    counter SQLite keeps in [sqlite_sequence] for the
    [AUTOINCREMENT] key, the largest rowid ever handed out. *)
Record t : Type := mk { rows : list row; seq : Z }.

(** [init_db] on a fresh file. *)
Definition init_db : t := mk [] 0.

(** SQLite folds the 26 ASCII capitals only, in [LOWER] and in the
    [NOCASE] collation alike. *)
Definition lower_char (c : ascii) : ascii :=
  let n := py.ord c in
  if (65 <=? n) && (n <=? 90) then ascii_of_N (Z.to_N (n + 32)) else c.

Fixpoint LOWER (s : string) : string :=
  match s with
  | EmptyString => EmptyString
  | String c r => String (lower_char c) (LOWER r)
  end.

(** [a = b COLLATE NOCASE] *)
Definition nocase_eqb (a b : string) : bool := String.eqb (LOWER a) (LOWER b).

(** The row is in conflict with a new ([user_id], [name]) under
    [UNIQUE(user_id, name COLLATE NOCASE)]; [delete_birthday]'s
    [WHERE] clause is the same test. *)
Definition same_key (u : Z) (n : string) (r : row) : bool :=
  (user_id r =? u) && nocase_eqb (name r) n.

Definition max_rowid (rs : list row) : Z :=
  fold_right (fun r m => Z.max (id r) m) 0 rs.

(** [DO UPDATE SET day=excluded.day, month=excluded.month,
    year=excluded.year, last_notified_year=NULL] *)
Definition do_update (d m : Z) (y : option Z) (r : row) : row :=
  mk_row (id r) (user_id r) (name r) d m y None.

(** [upsert_birthday]: SQLite draws the new rowid before it looks for
    a conflict, so the counter moves on either path. *)
Definition upsert_birthday (s : t) (u : Z) (n : string) (d m : Z)
           (y : option Z) : t :=
  let rowid := Z.max (max_rowid (rows s)) (seq s) + 1 in
  if existsb (same_key u n) (rows s)
  then mk (map (fun r => if same_key u n r then do_update d m y r else r)
               (rows s)) rowid
  else mk (rows s ++ [mk_row rowid u n d m y None]) rowid.

(** [delete_birthday]: the table afterwards and [cur.rowcount]. *)
Definition delete_birthday (s : t) (u : Z) (n : string) : t * Z :=
  (mk (filter (fun r => negb (same_key u n r)) (rows s)) (seq s),
   Z.of_nat (List.length (filter (same_key u n) (rows s)))).

(** What [list_birthdays] returns for a row: a dictionary with the
    four keys [name], [day], [month], [year]. *)
Record summary : Type := mk_summary {
  s_name : string;
  s_day : Z;
  s_month : Z;
  s_year : option Z
}.

Definition summary_of (r : row) : summary :=
  mk_summary (name r) (day r) (month r) (year r).

(** [ORDER BY month, day, LOWER(name)]: the third key is compared
    byte by byte. *)
Definition order_leb (a b : row) : bool :=
  if month a =? month b then
    if day a =? day b then String.leb (LOWER (name a)) (LOWER (name b))
    else day a <? day b
  else month a <? month b.

(** The same order, read on the summaries returned. *)
Definition summary_le (a b : summary) : Prop :=
  s_month a < s_month b
  \/ (s_month a = s_month b
      /\ (s_day a < s_day b
          \/ (s_day a = s_day b
              /\ String.leb (LOWER (s_name a)) (LOWER (s_name b)) = true))).

Fixpoint insert_sorted (r : row) (rs : list row) : list row :=
  match rs with
  | [] => [r]
  | x :: rs' => if order_leb r x then r :: rs else x :: insert_sorted r rs'
  end.

Definition order_by (rs : list row) : list row :=
  fold_right insert_sorted [] rs.

Definition list_birthdays (s : t) (u : Z) : list summary :=
  map summary_of (order_by (filter (fun r => user_id r =? u) (rows s))).

Fixpoint distinct (seen : list Z) (l : list Z) : list Z :=
  match l with
  | [] => []
  | x :: l' =>
      if existsb (Z.eqb x) seen then distinct seen l'
      else x :: distinct (x :: seen) l'
  end.

Fixpoint insert_id (x : Z) (l : list Z) : list Z :=
  match l with
  | [] => [x]
  | y :: l' => if x <=? y then x :: l else y :: insert_id x l'
  end.

Definition sort_ids (l : list Z) : list Z := fold_right insert_id [] l.

(** [SELECT DISTINCT user_id]: SQL leaves the order open; SQLite reads
    the owners off the index on [user_id], so they come in increasing
    order. *)
Definition get_all_users (s : t) : list Z :=
  sort_ids (distinct [] (map user_id (rows s))).

(** [get_birthdays_for_user]: the full rows, all six columns read. *)
Definition get_birthdays_for_user (s : t) (u : Z) : list row :=
  filter (fun r => user_id r =? u) (rows s).

Definition set_last_notified_year (s : t) (birthday_id y : Z) : t :=
  mk (map (fun r =>
             if id r =? birthday_id
             then mk_row (id r) (user_id r) (name r) (day r) (month r)
                         (year r) (Some y)
             else r) (rows s)) (seq s).

(** What the table's constraints keep true: the primary key is
    unique, no two rows of one owner have names equal under [NOCASE],
    and the counter is not below any rowid. *)
Definition key_free (r : row) (rs : list row) : Prop :=
  forall x, In x rs -> id x <> id r /\ same_key (user_id r) (name r) x = false.

Fixpoint unique_rows (rs : list row) : Prop :=
  match rs with
  | [] => True
  | r :: rs' => key_free r rs' /\ unique_rows rs'
  end.

Definition wf (s : t) : Prop :=
  unique_rows (rows s) /\ Forall (fun r => id r <= seq s) (rows s).

(** The statements that write to the table, as [db.py] issues them. *)
Inductive op : Type :=
| Upsert (u : Z) (n : string) (d m : Z) (y : option Z)
| Delete (u : Z) (n : string)
| SetNotified (i y : Z).

Definition apply_op (s : t) (o : op) : t :=
  match o with
  | Upsert u n d m y => upsert_birthday s u n d m y
  | Delete u n => fst (delete_birthday s u n)
  | SetNotified i y => set_last_notified_year s i y
  end.

(** The table after a history of statements on a fresh file. *)
Definition history (ops : list op) : t := fold_left apply_op ops init_db.

(** A row without its [last_notified_year]. *)
Definition frame (r : row) : Z * Z * string * Z * Z * option Z :=
  (id r, user_id r, name r, day r, month r, year r).

End db.

(** ** [bot.py] *)

Module bot.

Definition DAYS_BEFORE : Z := 3.

Definition SEPS : list ascii := ["."; "-"; "/"]%char.

(** The [for sep in (".", "-", "/")] loop of [parse_date]: the first
    separator that cuts [s] in two or three parts decides; an
    exception from [int] or [date] leaves the function at once. *)
Fixpoint parse_seps (seps : list ascii) (s : string)
  : result (Z * Z * option Z) :=
  match seps with
  | [] => Raise ValueError
  | sep :: seps' =>
      match py.split sep s with
      | [dd; mm] =>
          day <- py.int dd ;;
          month <- py.int mm ;;
          _ <- datetime.date_new 2000 month day ;;
          Ok (day, month, None)
      | [dd; mm; yyyy] =>
          day <- py.int dd ;;
          month <- py.int mm ;;
          year <- py.int yyyy ;;
          _ <- datetime.date_new year month day ;;
          Ok (day, month, Some year)
      | _ => parse_seps seps' s
      end
  end.

Definition parse_date (raw : string) : result (Z * Z * option Z) :=
  let s := py.strip raw in
  match datetime.strptime_Ymd s with
  | Ok dt => Ok (datetime.day dt, datetime.month dt, Some (datetime.year dt))
  | Raise ValueError => parse_seps SEPS s
  | Raise e => Raise e
  end.

Definition next_occurrence (day month : Z) (today : datetime.date)
  : result datetime.date :=
  d <- datetime.date_new (datetime.year today) month day ;;
  if datetime.ge d today then Ok d
  else datetime.date_new (datetime.year today + 1) month day.

Definition format_bday (name : string) (day month : Z) (year : option Z)
  : string :=
  match year with
  | None =>
      "• " +++ name +++ ": " +++ py.format_02d day +++ "."
           +++ py.format_02d month
  | Some y =>
      "• " +++ name +++ ": " +++ py.format_02d day +++ "."
           +++ py.format_02d month +++ "." +++ py.str y
  end.

Definition reminder_text (name : string) (when : datetime.date)
           (days_left : Z) : string :=
  if days_left =? 0 then
    "🎉 Сегодня день рождения у *" +++ name +++ "* — "
      +++ datetime.strftime_dm when +++ "!"
  else if days_left =? 1 then
    "⏰ Завтра день рождения у *" +++ name +++ "* — "
      +++ datetime.strftime_dm when +++ "."
  else
    "⏰ Через *" +++ py.str days_left +++ "* дн. день рождения у *"
      +++ name +++ "* — " +++ datetime.strftime_dm when +++ ".".

(** One call of [context.bot.send_message] in the sweep: the row it
    was made for, the chat, the text, and whether the call returned
    ([true]) or raised. *)
Record event : Type := mk_event {
  ev_id : Z;
  ev_chat : Z;
  ev_text : string;
  ev_ok : bool
}.

(** The world the sweep acts on: the database and the calls made to
    the transport so far, oldest first. *)
Record world : Type := mk_world { store : db.t; sent : list event }.

(** The transport: whether the call numbered [n] of this sweep, to
    this chat with this text, is delivered. *)
Definition transport : Type := nat -> Z -> string -> bool.

(** A step of the sweep that raised stops it; what was done before
    stays done, so the world is returned on both paths. *)
Definition step : Type := world -> result unit * world.

(** The body of the inner loop of [daily_check], for one row [b] of
    the owner [user_id]. *)
Definition check_row (deliver : transport) (today : datetime.date)
           (user_id : Z) (b : db.row) : step :=
  fun w =>
    match next_occurrence (db.day b) (db.month b) today with
    | Raise e => (Raise e, w)
    | Ok occ =>
        let days_left := datetime.sub_days occ today in
        if negb ((0 <=? days_left) && (days_left <=? DAYS_BEFORE))
        then (Ok tt, w)
        else if py.opt_eqb (db.last_notified_year b)
                           (Some (datetime.year occ))
        then (Ok tt, w)
        else
          let text := reminder_text (db.name b) occ days_left in
          if deliver (List.length (sent w)) user_id text
          then (Ok tt,
                mk_world
                  (db.set_last_notified_year (store w) (db.id b)
                                             (datetime.year occ))
                  (sent w ++ [mk_event (db.id b) user_id text true]))
          else (Ok tt,
                mk_world (store w)
                         (sent w ++ [mk_event (db.id b) user_id text false]))
    end.

(** [for x in xs: body(x)] *)
Fixpoint for_each {A : Type} (body : A -> step) (xs : list A) : step :=
  fun w =>
    match xs with
    | [] => (Ok tt, w)
    | x :: xs' =>
        match body x w with
        | (Ok _, w') => for_each body xs' w'
        | (Raise e, w') => (Raise e, w')
        end
    end.

(** The outer loop body: the owner's rows are read when the loop
    reaches the owner. *)
Definition check_user (deliver : transport) (today : datetime.date)
           (user_id : Z) : step :=
  fun w =>
    for_each (check_row deliver today user_id)
             (db.get_birthdays_for_user (store w) user_id) w.

Definition daily_check (deliver : transport) (today : datetime.date)
           (s : db.t) : result unit * world :=
  for_each (check_user deliver today) (db.get_all_users s) (mk_world s []).

(** *** The command handlers

    A handler gets the words after the command ([context.args]) and the
    sender ([update.effective_user.id]); it returns the table as it
    leaves it and the text it replies with. *)

(** The date as [add_cmd] shows it back: a year that is [None] or 0 is
    left out. *)
Definition shown (day month : Z) (year : option Z) : string :=
  py.format_02d day +++ "." +++ py.format_02d month
  +++ match year with
      | Some y => if y =? 0 then "" else "." +++ py.str y
      | None => ""
      end.

Definition add_usage : string :=
  "Использование: /add Имя Дата" +++ py.nl +++ "Пример: /add Маша 14.02".

Definition empty_name : string := "Имя не должно быть пустым.".

Definition bad_date : string :=
  "Не понял дату 😿" +++ py.nl +++ "Форматы: DD.MM, DD.MM.YYYY, YYYY-MM-DD"
  +++ py.nl +++ "Пример: /add Маша 14.02".

Definition add_cmd (args : list string) (user_id : Z) (s : db.t)
  : db.t * string :=
  match args with
  | a0 :: a1 :: _ =>
      let name := py.strip a0 in
      let date_raw := py.strip a1 in
      match name with
      | EmptyString => (s, empty_name)
      | _ =>
          match parse_date date_raw with
          | Raise _ => (s, bad_date)
          | Ok (day, month, year) =>
              (db.upsert_birthday s user_id name day month year,
               "✅ Сохранил: " +++ name +++ " — " +++ shown day month year)
          end
      end
  | _ => (s, add_usage)
  end.

Definition delete_usage : string :=
  "Использование: /delete Имя" +++ py.nl +++ "Пример: /delete Маша".

Definition delete_cmd (args : list string) (user_id : Z) (s : db.t)
  : db.t * string :=
  match args with
  | [] => (s, delete_usage)
  | a0 :: _ =>
      let name := py.strip a0 in
      match name with
      | EmptyString => (s, empty_name)
      | _ =>
          let '(s', deleted) := db.delete_birthday s user_id name in
          if deleted =? 0
          then (s', "Не нашёл «" +++ name
                    +++ "». Проверь имя или посмотри /list.")
          else (s', "🗑️ Удалил: " +++ name)
      end
  end.

(** [list_cmd] can fail in two ways: [next_occurrence] raises, or the
    search for the nearest birthday comes to compare two dictionaries,
    which Python refuses with a [TypeError]. *)
Inductive failure : Type :=
| Raised (e : exn)
| TypeError.

Inductive outcome (A : Type) : Type :=
| Done (a : A)
| Fails (f : failure).

Arguments Done {A} a.
Arguments Fails {A} f.

(** An element of the generator given to [min]: the days left, the
    name, the item. *)
Definition candidate : Type := Z * string * db.summary.

Definition summary_eqb (a b : db.summary) : bool :=
  String.eqb (db.s_name a) (db.s_name b)
  && (db.s_day a =? db.s_day b) && (db.s_month a =? db.s_month b)
  && py.opt_eqb (db.s_year a) (db.s_year b).

(** [x < y] on two such tuples: the first component that differs
    decides; two items that differ cannot be ordered. *)
Definition candidate_lt (x y : candidate) : outcome bool :=
  let '(dx, nx, ix) := x in
  let '(dy, ny, iy) := y in
  if negb (dx =? dy) then Done (dx <? dy)
  else if negb (String.eqb nx ny) then Done (String.ltb nx ny)
  else if summary_eqb ix iy then Done false
  else Fails TypeError.

Definition candidate_of (today : datetime.date) (it : db.summary)
  : outcome candidate :=
  match next_occurrence (db.s_day it) (db.s_month it) today with
  | Ok occ => Done (datetime.sub_days occ today, db.s_name it, it)
  | Raise e => Fails (Raised e)
  end.

(** The loop of [min] once it holds a first element: each further
    element is produced, then compared with the smallest so far. *)
Fixpoint min_from (today : datetime.date) (cur : candidate)
         (items : list db.summary) : outcome candidate :=
  match items with
  | [] => Done cur
  | it :: items' =>
      match candidate_of today it with
      | Fails f => Fails f
      | Done c =>
          match candidate_lt c cur with
          | Fails f => Fails f
          | Done lt => min_from today (if lt then c else cur) items'
          end
      end
  end.

(** [min(... for it in items)] on a list that is not empty. *)
Definition nearest (today : datetime.date) (items : list db.summary)
  : outcome candidate :=
  match items with
  | [] => Fails (Raised ValueError)
  | it :: items' =>
      match candidate_of today it with
      | Fails f => Fails f
      | Done c => min_from today c items'
      end
  end.

Definition list_empty : string := "Пока пусто. Добавь: /add Имя Дата".

Definition list_cmd (today : datetime.date) (user_id : Z) (s : db.t)
  : outcome string :=
  let items := db.list_birthdays s user_id in
  match items with
  | [] => Done list_empty
  | _ =>
      let lines :=
        ("🎂 Твои дни рождения:" +++ py.nl)
          :: map (fun it => format_bday (db.s_name it) (db.s_day it)
                                        (db.s_month it) (db.s_year it))
                 items in
      match nearest today items with
      | Fails f => Fails f
      | Done (diff, nm, it) =>
          match next_occurrence (db.s_day it) (db.s_month it) today with
          | Raise e => Fails (Raised e)
          | Ok occ =>
              let tail :=
                if diff =? 0 then
                  py.nl +++ py.nl +++ "🔥 Ближайшее: сегодня у " +++ nm
                        +++ " (" +++ datetime.strftime_dm occ +++ ")"
                else if diff =? 1 then
                  py.nl +++ py.nl +++ "✨ Ближайшее: завтра у " +++ nm
                        +++ " (" +++ datetime.strftime_dm occ +++ ")"
                else
                  py.nl +++ py.nl +++ "✨ Ближайшее: через " +++ py.str diff
                        +++ " дн. у " +++ nm
                        +++ " (" +++ datetime.strftime_dm occ +++ ")" in
              Done (py.join py.nl lines +++ tail)
          end
      end
  end.

End bot.

(** ** Texts that denote 29 February *)

(** A year written with four digits, as in [DD.MM.YYYY]. *)
Definition YYYY (y : Z) : string :=
  py.zeros (Z.to_nat (4 - py.len (py.str y))) +++ py.str y.

(** [29<sep>02] *)
Definition feb29_short (sep : ascii) : string :=
  "29" +++ String sep "02".

(** [29<sep>02<sep>YYYY] *)
Definition feb29_long (sep : ascii) (y : Z) : string :=
  "29" +++ String sep ("02" +++ String sep (YYYY y)).

(** [YYYY-02-29] *)
Definition feb29_iso (y : Z) : string := YYYY y +++ "-02-29".

(** What [parse_date] does with 29 February of the year [y]: the year
    must exist and be a leap year. *)
Definition feb29_of_year (y : Z) : result (Z * Z * option Z) :=
  if (1 <=? y) && datetime.is_leap y then Ok (29, 2, Some y)
  else Raise ValueError.

(** The ISO text of a 29 February that does not exist is not lost at
    once: the loop over the separators reads [YYYY-02-29] again as day
    [YYYY], month 2, year 29, which is a date when [YYYY] is at most
    28. *)
Definition feb29_iso_of_year (y : Z) : result (Z * Z * option Z) :=
  if (1 <=? y) && datetime.is_leap y then Ok (29, 2, Some y)
  else if (1 <=? y) && (y <=? 28) then Ok (y, 2, Some 29)
  else Raise ValueError.

Definition parsed_eqb (a b : result (Z * Z * option Z)) : bool :=
  match a, b with
  | Ok (d1, m1, y1), Ok (d2, m2, y2) =>
      (d1 =? d2) && (m1 =? m2) && py.opt_eqb y1 y2
  | Raise ValueError, Raise ValueError => true
  | Raise OverflowError, Raise OverflowError => true
  | _, _ => false
  end.

(** The three long forms and the ISO form of 29 February of one year,
    checked against [feb29_of_year]. *)
Definition feb29_year_checked (n : nat) : bool :=
  let y := Z.of_nat n in
  forallb (fun sep => parsed_eqb (bot.parse_date (feb29_long sep y))
                                 (feb29_of_year y)) bot.SEPS
  && parsed_eqb (bot.parse_date (feb29_iso y)) (feb29_iso_of_year y).

(** ** The sweep, read as a plan

    The definitions below are not in the source: they describe what
    [daily_check] does in two stages, first which rows are due (which
    does not depend on the transport), then what the transport makes of
    the calls.  [daily_check_plan] proves that the loops of [bot] do
    exactly this. *)

Module sweep.

(** What the body of the loop decides for a row before it calls the
    transport. *)
Inductive verdict : Type :=
| Abort (e : exn)
| Skip
| Due (occ : datetime.date) (days_left : Z).

Definition judge (today : datetime.date) (b : db.row) : verdict :=
  match bot.next_occurrence (db.day b) (db.month b) today with
  | Raise e => Abort e
  | Ok occ =>
      let days_left := datetime.sub_days occ today in
      if negb ((0 <=? days_left) && (days_left <=? bot.DAYS_BEFORE))
      then Skip
      else if py.opt_eqb (db.last_notified_year b)
                         (Some (datetime.year occ))
      then Skip
      else Due occ days_left
  end.

(** The rows in the order the two loops reach them, each with the
    owner it was read for. *)
Definition worklist (s : db.t) (users : list Z) : list (Z * db.row) :=
  flat_map (fun u => map (pair u) (db.get_birthdays_for_user s u)) users.

Definition visit (deliver : bot.transport) (today : datetime.date)
           (p : Z * db.row) : bot.step :=
  bot.check_row deliver today (fst p) (snd p).

(** A reminder that is due. *)
Record due : Type := mk_due {
  due_chat : Z;
  due_row : db.row;
  due_occ : datetime.date;
  due_days : Z
}.

Definition due_text (d : due) : string :=
  bot.reminder_text (db.name (due_row d)) (due_occ d) (due_days d).

(** The reminders due along a work list, up to the first row whose
    occurrence cannot be computed, and how the sweep ends. *)
Fixpoint plan (today : datetime.date) (l : list (Z * db.row))
  : list due * result unit :=
  match l with
  | [] => ([], Ok tt)
  | (u, b) :: l' =>
      match judge today b with
      | Abort e => ([], Raise e)
      | Skip => plan today l'
      | Due occ days_left =>
          (mk_due u b occ days_left :: fst (plan today l'),
           snd (plan today l'))
      end
  end.

(** The calls made for the reminders due, the first of them numbered
    [n]. *)
Fixpoint deliveries (deliver : bot.transport) (n : nat) (ds : list due)
  : list bot.event :=
  match ds with
  | [] => []
  | d :: ds' =>
      bot.mk_event (db.id (due_row d)) (due_chat d) (due_text d)
                   (deliver n (due_chat d) (due_text d))
      :: deliveries deliver (S n) ds'
  end.

(** The rows marked as notified, with the year: one for each call
    that was delivered. *)
Fixpoint marks (deliver : bot.transport) (n : nat) (ds : list due)
  : list (Z * Z) :=
  match ds with
  | [] => []
  | d :: ds' =>
      (if deliver n (due_chat d) (due_text d)
       then [(db.id (due_row d), datetime.year (due_occ d))] else [])
      ++ marks deliver (S n) ds'
  end.

Definition marked (ms : list (Z * Z)) (s : db.t) : db.t :=
  fold_left (fun s m => db.set_last_notified_year s (fst m) (snd m)) ms s.

(** What the transport is asked: the call without its outcome. *)
Definition request (e : bot.event) : Z * Z * string :=
  (bot.ev_id e, bot.ev_chat e, bot.ev_text e).

Definition request_of (d : due) : Z * Z * string :=
  (db.id (due_row d), due_chat d, due_text d).

(** The reminders a sweep over the table [s] owes on the day
    [today]. *)
Definition dues (today : datetime.date) (s : db.t) : list due :=
  fst (plan today (worklist s (db.get_all_users s))).

(** The row [r] once it has been marked as notified for [y]. *)
Definition notified (r : db.row) (y : Z) : db.row :=
  db.mk_row (db.id r) (db.user_id r) (db.name r) (db.day r) (db.month r)
            (db.year r) (Some y).

(** The calls of a sweep made for the row numbered [i]. *)
Definition calls_for (i : Z) (es : list bot.event) : list bot.event :=
  filter (fun e => bot.ev_id e =? i) es.

End sweep.

(** ** Letter case beyond ASCII

    The spec speaks of names compared without regard to case.  SQLite
    folds the 26 ASCII capitals only ([db.LOWER]).  To compare the two
    readings on names of the bot's own language, the function below
    folds, besides the ASCII capitals, the capitals of the Russian
    alphabet, in the UTF-8 bytes a name is stored in: U+0410..U+041F
    (bytes D0 90..9F) go to U+0430..U+043F (D0 B0..BF), U+0420..U+042F
    (D0 A0..AF) to U+0440..U+044F (D1 80..8F), and U+0401 (D0 81) to
    U+0451 (D1 91). *)
Fixpoint caseless_fold (s : string) : string :=
  match s with
  | EmptyString => EmptyString
  | String c r =>
      match r with
      | String c2 r2 =>
          if py.ord c =? 208 then
            let n := py.ord c2 in
            if (144 <=? n) && (n <=? 159)
            then String c (String (ascii_of_N (Z.to_N (n + 32)))
                                  (caseless_fold r2))
            else if (160 <=? n) && (n <=? 175)
            then String (ascii_of_N 209)
                        (String (ascii_of_N (Z.to_N (n - 32)))
                                (caseless_fold r2))
            else if n =? 129
            then String (ascii_of_N 209)
                        (String (ascii_of_N 145) (caseless_fold r2))
            else String c (String c2 (caseless_fold r2))
          else String (db.lower_char c) (caseless_fold r)
      | EmptyString => String (db.lower_char c) EmptyString
      end
  end.

(** Two names that differ in the case of their letters only. *)
Definition caseless_eqb (a b : string) : bool :=
  String.eqb (caseless_fold a) (caseless_fold b).

(** ** Texts of dates, for the round trips *)

(** What [parse_date] accepts: a day and a month of the leap year
    2000, and a date of the year given when there is one. *)
Definition accepted (d m : Z) (y : option Z) : Prop :=
  datetime.date_new 2000 m d = Ok (datetime.mk 2000 m d)
  /\ match y with
     | Some yy => datetime.date_new yy m d = Ok (datetime.mk yy m d)
     | None => True
     end.

(** Every row has a name and a date that [parse_date] accepts. *)
Definition clean (s : db.t) : Prop :=
  forall r, In r (db.rows s) ->
            db.name r <> EmptyString
            /\ accepted (db.day r) (db.month r) (db.year r).

(** The text is made of decimal digits, at least one. *)
Fixpoint all_digits (s : string) : bool :=
  match s with
  | EmptyString => true
  | String c r => py.isdigit c && all_digits r
  end.

Definition int_eqb (a : result Z) (b : Z) : bool :=
  match a with
  | Ok v => v =? b
  | Raise _ => false
  end.

(** [str] writes the number with digits only and [int] reads it
    back. *)
Definition str_int_checked (n : nat) : bool :=
  let y := Z.of_nat n in
  match py.str y with
  | EmptyString => false
  | s => all_digits s && int_eqb (py.int s) y
  end.

(** [format_02d] writes the number with two digits and [int] reads it
    back. *)
Definition two_digits_checked (n : nat) : bool :=
  let d := Z.of_nat n in
  match py.format_02d d with
  | String a (String b EmptyString) =>
      py.isdigit a && py.isdigit b
      && int_eqb (py.int (String a (String b EmptyString))) d
  | _ => false
  end.

(** * Properties *)

(** Boolean tests in hypotheses and goal, turned into propositions. *)
Ltac unbool :=
  repeat match goal with
         | H : negb _ = true |- _ => apply negb_true_iff in H
         | H : negb _ = false |- _ => apply negb_false_iff in H
         | H : andb _ _ = true |- _ => apply andb_true_iff in H; destruct H
         | H : andb _ _ = false |- _ => apply andb_false_iff in H
         | H : orb _ _ = true |- _ => apply orb_true_iff in H
         | H : orb _ _ = false |- _ => apply orb_false_iff in H; destruct H
         | H : (_ <=? _) = true |- _ => apply Z.leb_le in H
         | H : (_ <=? _) = false |- _ => apply Z.leb_gt in H
         | H : (_ <? _) = true |- _ => apply Z.ltb_lt in H
         | H : (_ <? _) = false |- _ => apply Z.ltb_ge in H
         | H : (_ =? _) = true |- _ => apply Z.eqb_eq in H
         | H : (_ =? _) = false |- _ => apply Z.eqb_neq in H
         end.

(** A table written out row by row meets its constraints. *)
Ltac wf_rows :=
  split; cbn;
  [ repeat match goal with
           | |- _ /\ _ => split
           | |- True => exact I
           | |- db.key_free _ _ => intros ? ?
           | H : _ \/ _ |- _ => destruct H as [<-|H]
           | H : False |- _ => destruct H
           | H : In _ _ |- _ => cbn in H
           | |- _ <> _ => cbn; discriminate
           | |- _ = false => reflexivity
           end
  | repeat constructor; cbn; lia ].

(** ** Dates *)

Section Dates.

Import datetime.

Lemma days_in_month_bounds (y m : Z) :
  1 <= m <= 12 -> 28 <= days_in_month y m <= 31.
Proof.
  intros Hm. unfold days_in_month.
  destruct ((m =? 2) && is_leap y); [lia|].
  assert (Hc : m = 1 \/ m = 2 \/ m = 3 \/ m = 4 \/ m = 5 \/ m = 6 \/ m = 7
               \/ m = 8 \/ m = 9 \/ m = 10 \/ m = 11 \/ m = 12) by lia.
  repeat destruct Hc as [-> | Hc]; try subst m; vm_compute; split; discriminate.
Qed.

Lemma days_in_month_feb (y : Z) :
  days_in_month y 2 = if is_leap y then 29 else 28.
Proof. unfold days_in_month. destruct (is_leap y); reflexivity. Qed.

Lemma date_new_ok (y m d : Z) (t : date) :
  date_new y m d = Ok t <->
  t = datetime.mk y m d /\ 1 <= y <= 9999 /\ 1 <= m <= 12
  /\ 1 <= d <= days_in_month y m.
Proof.
  unfold date_new, fits_int, INT_MIN, INT_MAX, MINYEAR, MAXYEAR.
  split.
  - repeat match goal with
           | |- context [if negb ?b then _ else _] =>
               destruct b eqn:?; cbn [negb]; try discriminate
           end.
    intros [= <-]. unbool. split; [reflexivity | lia].
  - intros (-> & Hy & Hm & Hd).
    pose proof (days_in_month_bounds y m Hm).
    repeat match goal with
           | |- context [if negb ?b then _ else _] =>
               let E := fresh in
               destruct b eqn:E; cbn [negb];
               [|exfalso; unbool; intuition lia]
           end.
    reflexivity.
Qed.

Lemma date_new_bad_day (y m d : Z) :
  1 <= y <= 9999 -> 1 <= m <= 12 -> ~ (1 <= d <= days_in_month y m) ->
  - 2 ^ 31 <= d <= 2 ^ 31 - 1 ->
  date_new y m d = Raise ValueError.
Proof.
  intros Hy Hm Hd Hi.
  unfold date_new, fits_int, INT_MIN, INT_MAX, MINYEAR, MAXYEAR.
  repeat match goal with
         | |- context [if negb ?b then _ else _] =>
             let E := fresh in
             destruct b eqn:E; cbn [negb]; try reflexivity;
             try (exfalso; unbool; intuition lia)
         end.
Qed.

Lemma valid_bounds (t : date) :
  valid t ->
  1 <= year t <= 9999 /\ 1 <= month t <= 12
  /\ 1 <= day t <= days_in_month (year t) (month t).
Proof. intros H. apply date_new_ok in H. tauto. Qed.

End Dates.

Section NextOccurrence.

Import datetime.

(** C1 (the code breaks it): for every date [today] of a year that is
    not a leap year, [next_occurrence 29 2 today] should return a
    substitute date without raising.  The code builds
    [date(today.year, 2, 29)] and so raises [ValueError] on every such
    [today]. *)
Theorem next_occurrence_feb29_raises (today : date) :
  valid today -> is_leap (year today) = false ->
  bot.next_occurrence 29 2 today = Raise ValueError.
Proof.
  intros Hv Hl. apply valid_bounds in Hv as (Hy & _ & _).
  unfold bot.next_occurrence.
  rewrite (date_new_bad_day (year today) 2 29); [reflexivity | lia | lia | | lia].
  rewrite days_in_month_feb, Hl. lia.
Qed.

Lemma next_occurrence_feb29_raises_witness :
  bot.next_occurrence 29 2 (datetime.mk 2023 1 1) = Raise ValueError.
Proof. apply next_occurrence_feb29_raises; reflexivity. Defined.

Lemma date_new_next_year (y m d : Z) (t : date) :
  date_new y m d = Ok t -> ~ (m = 2 /\ d = 29) -> y < 9999 ->
  date_new (y + 1) m d = Ok (datetime.mk (y + 1) m d).
Proof.
  intros H Hf Hy. apply date_new_ok in H as (_ & Hy' & Hm & Hd).
  apply date_new_ok. repeat split; try lia.
  destruct (Z.eq_dec m 2) as [->|Hm2].
  - rewrite days_in_month_feb in *.
    destruct (is_leap y), (is_leap (y + 1)); lia.
  - unfold days_in_month in *.
    replace (m =? 2) with false in * by (symmetry; apply Z.eqb_neq; lia).
    cbv beta iota delta [andb] in *. lia.
Qed.

(** C6, as amended: when [date(today.year, month, day)] can be built
    and is on or after [today], [next_occurrence] returns it;
    otherwise, unless the day is 29 February or [today] is in the
    last year 9999, it returns the same day and month of the next
    year. *)
Theorem next_occurrence_this_or_next_year (day month : Z) (today d : date) :
  date_new (year today) month day = Ok d ->
  (ge d today = true -> bot.next_occurrence day month today = Ok d)
  /\ (ge d today = false -> ~ (month = 2 /\ day = 29) -> year today < 9999 ->
      bot.next_occurrence day month today
      = Ok (datetime.mk (year today + 1) month day)).
Proof.
  intros H. unfold bot.next_occurrence. rewrite H. cbn [bind]. split.
  - intros ->. reflexivity.
  - intros -> Hf Hy. eapply date_new_next_year; eauto.
Qed.

Lemma next_occurrence_this_or_next_year_witness :
  bot.next_occurrence 14 2 (datetime.mk 2024 2 14) = Ok (datetime.mk 2024 2 14)
  /\ bot.next_occurrence 14 2 (datetime.mk 2024 2 15)
     = Ok (datetime.mk 2025 2 14).
Proof.
  split.
  - apply (proj1 (next_occurrence_this_or_next_year
                    14 2 (datetime.mk 2024 2 14) (datetime.mk 2024 2 14)
                    eq_refl)).
    reflexivity.
  - apply (proj2 (next_occurrence_this_or_next_year
                    14 2 (datetime.mk 2024 2 15) (datetime.mk 2024 2 14)
                    eq_refl)).
    + reflexivity.
    + intros [_ H]. discriminate H.
    + cbn. lia.
Defined.

(** C6 as stated fails: 29 February can be built in 2024 and lies
    before 1 March 2024, yet the result is not 29 February 2025; the
    call raises. *)
Lemma next_occurrence_rollover_counterexample :
  date_new 2024 2 29 = Ok (datetime.mk 2024 2 29)
  /\ ge (datetime.mk 2024 2 29) (datetime.mk 2024 3 1) = false
  /\ bot.next_occurrence 29 2 (datetime.mk 2024 3 1) = Raise ValueError.
Proof. repeat split. Qed.

End NextOccurrence.

(** ** [parse_date] on 29 February *)

Section ParseFeb29.

Lemma feb29_all_years_checked :
  forallb feb29_year_checked (List.seq 0 (Z.to_nat 10000)) = true.
Proof. vm_compute. reflexivity. Qed.

Lemma parsed_eqb_eq (a b : result (Z * Z * option Z)) :
  parsed_eqb a b = true -> a = b.
Proof.
  destruct a as [[[d1 m1] y1]|[]], b as [[[d2 m2] y2]|[]];
    cbn; try discriminate; try reflexivity.
  intros H. unbool. subst.
  destruct y1, y2; cbn in *; try discriminate; unbool; subst; reflexivity.
Qed.

(** C2, as amended: the two-part form [29<sep>02] is always accepted
    as (29, 2, None); the three-part form [29<sep>02<sep>YYYY] and the
    ISO form [YYYY-02-29] are accepted, with (29, 2, YYYY), exactly
    when YYYY is a leap year from 1 on: the date is checked against
    the year that was given.  Otherwise the three-part form raises
    [ValueError]; so does the ISO form, except that for YYYY from 1
    to 28 it is read as day YYYY of February of the year 29. *)
Theorem parse_date_feb29 (sep : ascii) (y : Z) :
  In sep bot.SEPS -> 0 <= y <= 9999 ->
  bot.parse_date (feb29_short sep) = Ok (29, 2, None)
  /\ bot.parse_date (feb29_long sep y) = feb29_of_year y
  /\ bot.parse_date (feb29_iso y) = feb29_iso_of_year y.
Proof.
  intros Hs Hy.
  assert (Hc : feb29_year_checked (Z.to_nat y) = true).
  { pose proof feb29_all_years_checked as H.
    rewrite forallb_forall in H. apply H. apply in_seq. lia. }
  unfold feb29_year_checked in Hc. rewrite Z2Nat.id in Hc by lia.
  apply andb_true_iff in Hc as [Hl Hi].
  rewrite forallb_forall in Hl.
  split; [|split].
  - cbn in Hs. destruct Hs as [<-|[<-|[<-|[]]]]; reflexivity.
  - apply parsed_eqb_eq, Hl, Hs.
  - apply parsed_eqb_eq, Hi.
Qed.

Lemma parse_date_feb29_witness :
  bot.parse_date "29.02" = Ok (29, 2, None)
  /\ bot.parse_date "29.02.2024" = Ok (29, 2, Some 2024)
  /\ bot.parse_date "2024-02-29" = Ok (29, 2, Some 2024).
Proof.
  apply (parse_date_feb29 "."%char 2024).
  - cbn. auto.
  - lia.
Defined.

(** C2 as stated fails: the three-part form with a year that is not a
    leap year is refused. *)
Lemma parse_date_feb29_counterexample :
  bot.parse_date "29.02.2023" = Raise ValueError.
Proof. reflexivity. Qed.

End ParseFeb29.
(** ** The table *)

Section Store.

Import db.

Lemma same_key_iff (u : Z) (n : string) (r : row) :
  same_key u n r = true <-> user_id r = u /\ LOWER (name r) = LOWER n.
Proof.
  unfold same_key, nocase_eqb.
  rewrite andb_true_iff, Z.eqb_eq, String.eqb_eq. tauto.
Qed.

(** Two keys that name the same owner and fold to the same name
    select the same rows. *)
Lemma same_key_fold (u : Z) (n n' : string) (r : row) :
  LOWER n = LOWER n' -> same_key u n r = same_key u n' r.
Proof. intros H. unfold same_key, nocase_eqb. rewrite H. reflexivity. Qed.

Lemma same_key_of_row (u : Z) (n : string) (r x : row) :
  same_key u n r = true ->
  same_key u n x = same_key (user_id r) (name r) x.
Proof.
  intros H. apply same_key_iff in H as [<- H].
  symmetry. apply same_key_fold. exact H.
Qed.

Lemma key_free_no_match (u : Z) (n : string) (r : row) (rs : list row) :
  key_free r rs -> same_key u n r = true -> filter (same_key u n) rs = [].
Proof.
  intros Hf Hr. induction rs as [|x rs IH]; [reflexivity|].
  cbn. rewrite (same_key_of_row u n r x Hr).
  destruct (Hf x (or_introl eq_refl)) as [_ ->].
  apply IH. intros y Hy. apply Hf. right. exact Hy.
Qed.

Lemma unique_rows_at_most_one (u : Z) (n : string) (rs : list row) :
  unique_rows rs -> (List.length (filter (same_key u n) rs) <= 1)%nat.
Proof.
  induction rs as [|r rs IH]; cbn; [lia|].
  intros [Hf Hu]. destruct (same_key u n r) eqn:E.
  - rewrite (key_free_no_match u n r rs Hf E). cbn. lia.
  - auto.
Qed.

Lemma unique_rows_same_id (rs : list row) (a b : row) :
  unique_rows rs -> In a rs -> In b rs -> id a = id b -> a = b.
Proof.
  induction rs as [|r rs IH]; cbn; [tauto|].
  intros [Hf Hu] [Ea|Ha] [Eb|Hb] E; subst; auto.
  - destruct (Hf b Hb) as [H _]. congruence.
  - destruct (Hf a Ha) as [H _]. congruence.
Qed.

Lemma unique_rows_same_key (rs : list row) (a b : row) :
  unique_rows rs -> In a rs -> In b rs ->
  same_key (user_id a) (name a) b = true -> a = b.
Proof.
  induction rs as [|r rs IH]; cbn; [tauto|].
  intros [Hf Hu] [Ea|Ha] [Eb|Hb] E; subst; auto.
  - destruct (Hf b Hb) as [_ H]. congruence.
  - destruct (Hf a Ha) as [_ H].
    apply same_key_iff in E as [E1 E2].
    assert (same_key (user_id b) (name b) a = true)
      by (apply same_key_iff; split; congruence).
    congruence.
Qed.

Lemma wf_init_db : wf init_db.
Proof. split; cbn; auto. Qed.

Lemma max_rowid_bound (rs : list row) (m : Z) :
  Forall (fun r => id r <= m) rs -> 0 <= m -> max_rowid rs <= m.
Proof.
  intros H Hm. unfold max_rowid.
  induction H; cbn [fold_right]; lia.
Qed.

(** A map that keeps the identifier, the owner and the name of every
    row keeps the rows unique. *)
Lemma unique_rows_map (f : row -> row) (rs : list row) :
  (forall r, id (f r) = id r /\ user_id (f r) = user_id r
             /\ name (f r) = name r) ->
  unique_rows rs -> unique_rows (map f rs).
Proof.
  intros Hf. induction rs as [|r rs IH]; cbn; [auto|].
  intros [Hk Hu]. split; [|auto].
  intros x Hx. apply in_map_iff in Hx as (x0 & <- & Hx0).
  destruct (Hf r) as (-> & -> & ->), (Hf x0) as (E1 & E2 & E3).
  destruct (Hk x0 Hx0) as [H1 H2]. split; [congruence|].
  unfold same_key in *. rewrite E2, E3. exact H2.
Qed.

Lemma unique_rows_filter (p : row -> bool) (rs : list row) :
  unique_rows rs -> unique_rows (filter p rs).
Proof.
  induction rs as [|r rs IH]; cbn; [auto|].
  intros [Hk Hu]. destruct (p r); cbn; auto.
  split; [|auto]. intros x Hx. apply filter_In in Hx as [Hx _]. auto.
Qed.

Lemma unique_rows_snoc (rs : list row) (r : row) :
  unique_rows rs ->
  (forall x, In x rs ->
             id x <> id r /\ same_key (user_id r) (name r) x = false) ->
  unique_rows (rs ++ [r]).
Proof.
  induction rs as [|a rs IH]; cbn.
  - intros _ _. split; [|exact I]. intros x [].
  - intros [Hk Hu] Hn. split.
    + intros x Hx. apply in_app_or in Hx as [Hx|[<-|[]]]; [auto|].
      destruct (Hn a (or_introl eq_refl)) as [H1 H2]. split; [congruence|].
      destruct (same_key (user_id a) (name a) r) eqn:E; [|reflexivity].
      apply same_key_iff in E as [E1 E2].
      assert (same_key (user_id r) (name r) a = true)
        by (apply same_key_iff; split; congruence).
      congruence.
    + apply IH; auto.
Qed.

Lemma wf_upsert_birthday (s : t) (u : Z) (n : string) (d m : Z)
      (y : option Z) :
  wf s -> wf (upsert_birthday s u n d m y).
Proof.
  intros [Hu Hs]. unfold upsert_birthday.
  assert (Hmax : forall r, In r (rows s) -> id r <= max_rowid (rows s)).
  { clear. unfold max_rowid.
    induction (rows s) as [|a rs IH]; cbn [fold_right In]; [tauto|].
    intros r [<-|Hr]; [lia|]. specialize (IH r Hr). lia. }
  destruct (existsb (same_key u n) (rows s)) eqn:E; split; cbn [rows seq].
  - apply unique_rows_map; [|exact Hu].
    intros r. destruct (same_key u n r); cbn; auto.
  - apply Forall_forall. intros x Hx.
    apply in_map_iff in Hx as (x0 & <- & Hx0).
    specialize (Hmax x0 Hx0).
    destruct (same_key u n x0); cbn; lia.
  - apply unique_rows_snoc; [exact Hu|]. cbn. intros x Hx. split.
    + specialize (Hmax x Hx). lia.
    + destruct (same_key u n x) eqn:Ex; [|reflexivity].
      assert (existsb (same_key u n) (rows s) = true)
        by (apply existsb_exists; eauto).
      congruence.
  - apply Forall_app. split.
    + apply Forall_forall. intros x Hx. specialize (Hmax x Hx). lia.
    + constructor; [cbn; lia | constructor].
Qed.

Lemma wf_delete_birthday (s : t) (u : Z) (n : string) :
  wf s -> wf (fst (delete_birthday s u n)).
Proof.
  intros [Hu Hs]. split; cbn.
  - apply unique_rows_filter, Hu.
  - rewrite Forall_forall in *. intros x Hx.
    apply filter_In in Hx as [Hx _]. auto.
Qed.

Lemma wf_set_last_notified_year (s : t) (i y : Z) :
  wf s -> wf (set_last_notified_year s i y).
Proof.
  intros [Hu Hs]. split; cbn.
  - apply unique_rows_map; [|exact Hu].
    intros r. destruct (id r =? i); cbn; auto.
  - rewrite Forall_forall in *. intros x Hx.
    apply in_map_iff in Hx as (x0 & <- & Hx0).
    specialize (Hs x0 Hx0). destruct (id x0 =? i); cbn; lia.
Qed.

Lemma filter_map_stable (p : row -> bool) (f : row -> row) (rs : list row) :
  (forall r, p (f r) = p r) ->
  filter p (map f rs) = map f (filter p rs).
Proof.
  intros H. induction rs as [|r rs IH]; cbn; [reflexivity|].
  rewrite H. destruct (p r); cbn; congruence.
Qed.

Lemma filter_none (p : row -> bool) (rs : list row) :
  existsb p rs = false -> filter p rs = [].
Proof.
  induction rs as [|r rs IH]; cbn; [reflexivity|].
  destruct (p r); cbn; [discriminate | exact IH].
Qed.

Lemma filter_all (p : row -> bool) (rs : list row) :
  (forall r, In r rs -> p r = true) -> filter p rs = rs.
Proof.
  induction rs as [|r rs IH]; cbn; [reflexivity|].
  intros H. rewrite (H r (or_introl eq_refl)). f_equal. auto.
Qed.

Lemma the_matching_row (u : Z) (n : string) (rs : list row) :
  unique_rows rs -> existsb (same_key u n) rs = true ->
  exists r, filter (same_key u n) rs = [r].
Proof.
  intros Hu He. pose proof (unique_rows_at_most_one u n rs Hu) as Hl.
  destruct (filter (same_key u n) rs) as [|r [|r' l]] eqn:E; cbn in Hl.
  - apply existsb_exists in He as (x & Hx & Hk).
    assert (Hin : In x (filter (same_key u n) rs))
      by (apply filter_In; auto).
    rewrite E in Hin. destruct Hin.
  - eauto.
  - lia.
Qed.

Lemma nocase_eqb_refl (n : string) : nocase_eqb n n = true.
Proof. apply String.eqb_refl. Qed.

Lemma same_key_new_row (i u : Z) (n : string) (d m : Z) (y l : option Z) :
  same_key u n (mk_row i u n d m y l) = true.
Proof.
  unfold same_key. cbn [user_id name].
  rewrite Z.eqb_refl, nocase_eqb_refl. reflexivity.
Qed.

(** After an upsert exactly one row answers to the key, and it holds
    the values just given, with no notification recorded. *)
Lemma upsert_birthday_row (s : t) (u : Z) (n : string) (d m : Z)
      (y : option Z) :
  wf s ->
  exists r, filter (same_key u n) (rows (upsert_birthday s u n d m y)) = [r]
            /\ day r = d /\ month r = m /\ year r = y
            /\ last_notified_year r = None.
Proof.
  intros [Hu _]. unfold upsert_birthday.
  destruct (existsb (same_key u n) (rows s)) eqn:E; cbn [rows].
  - destruct (the_matching_row u n (rows s) Hu E) as [r0 Hr0].
    rewrite filter_map_stable, Hr0.
    + assert (Hk : same_key u n r0 = true).
      { assert (Hin : In r0 (filter (same_key u n) (rows s)))
          by (rewrite Hr0; left; reflexivity).
        apply filter_In in Hin. tauto. }
      cbn. rewrite Hk. eexists. split; [reflexivity|]. cbn. auto.
    + intros r. destruct (same_key u n r) eqn:Ek; [|exact Ek].
      unfold same_key in *. exact Ek.
  - rewrite filter_app, (filter_none _ _ E). cbn [filter app].
    rewrite same_key_new_row.
    eexists. split; [reflexivity|]. cbn. auto.
Qed.

Lemma upsert_birthday_length_on_conflict (s : t) (u : Z) (n : string)
      (d m : Z) (y : option Z) :
  existsb (same_key u n) (rows s) = true ->
  List.length (rows (upsert_birthday s u n d m y)) = List.length (rows s).
Proof.
  intros E. unfold upsert_birthday. rewrite E. cbn. apply length_map.
Qed.

(** C7, as amended: in a table that meets its constraints, and so
    after any sequence of upserts, an upsert leaves at most one row for
    every owner and name up to the case of the ASCII letters (SQLite's
    [NOCASE]), and exactly one for the key it was given; that row holds
    the new day, month and year and a null [last_notified_year].  A
    second upsert of the same owner and of a name equal up to ASCII
    case adds no row and leaves the one row with the second date. *)
Theorem upsert_birthday_one_row_per_key
        (s : t) (u : Z) (n n2 : string) (d m d2 m2 : Z) (y y2 : option Z) :
  wf s -> nocase_eqb n n2 = true ->
  let s1 := upsert_birthday s u n d m y in
  let s2 := upsert_birthday s1 u n2 d2 m2 y2 in
  (forall u' n', (List.length (filter (same_key u' n') (rows s1)) <= 1)%nat)
  /\ (exists r, filter (same_key u n) (rows s1) = [r]
                /\ day r = d /\ month r = m /\ year r = y
                /\ last_notified_year r = None)
  /\ (exists r, filter (same_key u n) (rows s2) = [r]
                /\ day r = d2 /\ month r = m2 /\ year r = y2
                /\ last_notified_year r = None)
  /\ List.length (rows s2) = List.length (rows s1).
Proof.
  intros Hw Hn s1 s2.
  assert (Hw1 : wf s1) by (apply wf_upsert_birthday, Hw).
  assert (Hfold : LOWER n = LOWER n2) by (apply String.eqb_eq, Hn).
  split; [|split; [|split]].
  - intros u' n'. apply unique_rows_at_most_one, Hw1.
  - apply upsert_birthday_row, Hw.
  - destruct (upsert_birthday_row s1 u n2 d2 m2 y2 Hw1) as (r & Hr & H).
    exists r. split; [|exact H].
    rewrite <- Hr. apply filter_ext. intros x. apply same_key_fold, Hfold.
  - apply upsert_birthday_length_on_conflict.
    destruct (upsert_birthday_row s u n d m y Hw) as (r & Hr & _).
    apply existsb_exists. exists r.
    assert (Hin : In r (filter (same_key u n) (rows s1)))
      by (fold s1 in Hr; rewrite Hr; left; reflexivity).
    apply filter_In in Hin as [Hin Hk]. split; [exact Hin|].
    rewrite <- (same_key_fold u n n2 r Hfold). exact Hk.
Qed.

Lemma upsert_birthday_one_row_per_key_witness :
  let s := db.mk [mk_row 1 7 "Maria" 3 5 None (Some 2024)] 1 in
  exists r, filter (same_key 7 "Maria")
                   (rows (upsert_birthday
                            (upsert_birthday s 7 "maria" 14 2 (Some 2004))
                            7 "MARIA" 15 3 None)) = [r]
            /\ day r = 15 /\ month r = 3 /\ year r = None
            /\ last_notified_year r = None.
Proof.
  intros s.
  destruct (upsert_birthday_one_row_per_key
              s 7 "maria" "MARIA" 14 2 15 3 (Some 2004) None)
    as (_ & _ & (r & Hr & H) & _).
  - wf_rows.
  - reflexivity.
  - exists r. split; [exact Hr | exact H].
Defined.

(** C7 as stated fails: [NOCASE] does not fold the letters of other
    alphabets, so the same owner's "Маша" and "МАША", which differ in
    case only, are kept as two rows. *)
Lemma upsert_birthday_cyrillic_counterexample :
  caseless_eqb "Маша" "МАША" = true
  /\ rows (upsert_birthday (upsert_birthday init_db 7 "Маша" 14 2 None)
                           7 "МАША" 15 3 None)
     = [mk_row 1 7 "Маша" 14 2 None None; mk_row 2 7 "МАША" 15 3 None None].
Proof. split; reflexivity. Qed.

(** C10, as amended: an upsert whose name equals that of an existing
    row of the owner up to the case of the ASCII letters rewrites the
    day, the month and the year of that row and clears its
    [last_notified_year]; the row keeps its [id] and the name as it
    was first stored, and no other row changes. *)
Theorem upsert_birthday_keeps_id_and_name
        (s : t) (u : Z) (n : string) (d m : Z) (y : option Z) (r : row) :
  wf s -> In r (rows s) -> same_key u n r = true ->
  rows (upsert_birthday s u n d m y)
  = map (fun x => if id x =? id r
                  then mk_row (id r) (user_id r) (name r) d m y None
                  else x) (rows s).
Proof.
  intros [Hu _] Hr Hk. unfold upsert_birthday.
  assert (E : existsb (same_key u n) (rows s) = true)
    by (apply existsb_exists; eauto).
  rewrite E. cbn [rows]. apply map_ext_in. intros x Hx.
  destruct (same_key u n x) eqn:Ex.
  - assert (x = r).
    { symmetry. apply (unique_rows_same_key (rows s)); auto.
      rewrite <- (same_key_of_row u n r x Hk). exact Ex. }
    subst x. rewrite Z.eqb_refl. reflexivity.
  - destruct (id x =? id r) eqn:Ei; [|reflexivity].
    apply Z.eqb_eq in Ei.
    assert (x = r) by (apply (unique_rows_same_id (rows s)); auto).
    congruence.
Qed.

Lemma upsert_birthday_keeps_id_and_name_witness :
  rows (upsert_birthday
          (db.mk [mk_row 1 7 "Maria" 3 5 None (Some 2024);
                  mk_row 2 7 "Bob" 1 1 None None] 2)
          7 "mARIA" 14 2 (Some 2004))
  = [mk_row 1 7 "Maria" 14 2 (Some 2004) None;
     mk_row 2 7 "Bob" 1 1 None None].
Proof.
  apply (upsert_birthday_keeps_id_and_name
           (db.mk [mk_row 1 7 "Maria" 3 5 None (Some 2024);
                   mk_row 2 7 "Bob" 1 1 None None] 2)
           7 "mARIA" 14 2 (Some 2004)
           (mk_row 1 7 "Maria" 3 5 None (Some 2024))).
  - wf_rows.
  - left. reflexivity.
  - reflexivity.
Defined.

(** C10 as stated fails: "маша" has the letters of the stored "Маша"
    in another case, yet the upsert replaces nothing; the old row
    keeps its date and its mark and a second row is inserted. *)
Lemma upsert_birthday_cyrillic_case_counterexample :
  caseless_eqb "Маша" "маша" = true
  /\ rows (upsert_birthday (db.mk [mk_row 1 7 "Маша" 14 2 None (Some 2024)] 1)
                           7 "маша" 15 3 None)
     = [mk_row 1 7 "Маша" 14 2 None (Some 2024);
        mk_row 2 7 "маша" 15 3 None None].
Proof. split; reflexivity. Qed.

(** C9, as amended: [delete_birthday] compares names up to the case of
    the ASCII letters and returns the number of rows removed, 0 or 1
    in a table that meets its constraints: 1 exactly when a row of the
    owner answers to the name.  The rows left are the rows that did not
    match; when none matched the result is 0 and the table is as
    before. *)
Theorem delete_birthday_count (s : t) (u : Z) (n : string) :
  wf s ->
  let s' := fst (delete_birthday s u n) in
  let k := snd (delete_birthday s u n) in
  (k = 0 \/ k = 1)
  /\ (k = 1 <-> exists r, In r (rows s) /\ same_key u n r = true)
  /\ (forall r, In r (rows s') <-> In r (rows s) /\ same_key u n r = false)
  /\ ((forall r, In r (rows s) -> same_key u n r = false) ->
      s' = s /\ k = 0)
  /\ (forall n', nocase_eqb n n' = true ->
                 delete_birthday s u n' = delete_birthday s u n).
Proof.
  intros [Hu _] s' k. subst s' k. cbn [fst snd delete_birthday].
  pose proof (unique_rows_at_most_one u n (rows s) Hu) as Hl.
  split; [lia|]. split; [|split; [|split]].
  - split.
    + intros Hk.
      destruct (filter (same_key u n) (rows s)) as [|r l] eqn:E;
        [cbn in Hk; lia|].
      exists r. apply filter_In. rewrite E. left. reflexivity.
    + intros (r & Hr & Hk).
      assert (Hin : In r (filter (same_key u n) (rows s)))
        by (apply filter_In; auto).
      destruct (filter (same_key u n) (rows s)) as [|a [|b l]];
        cbn in *; [tauto | reflexivity | lia].
  - intros r. cbn. rewrite filter_In, negb_true_iff. tauto.
  - intros Hno. split.
    + destruct s as [rs q]. cbn in *. f_equal.
      apply filter_all. intros r Hr. rewrite (Hno r Hr). reflexivity.
    + rewrite filter_none; [reflexivity|].
      destruct (existsb (same_key u n) (rows s)) eqn:E; [|reflexivity].
      apply existsb_exists in E as (r & Hr & Hk).
      rewrite (Hno r Hr) in Hk. discriminate.
  - intros n' Hn. apply String.eqb_eq in Hn.
    unfold delete_birthday.
    rewrite (filter_ext (same_key u n') (same_key u n))
      by (intros x; symmetry; apply same_key_fold, Hn).
    rewrite (filter_ext (fun r => negb (same_key u n' r))
                        (fun r => negb (same_key u n r)))
      by (intros x; f_equal; symmetry; apply same_key_fold, Hn).
    reflexivity.
Qed.

Lemma delete_birthday_count_witness :
  let s := db.mk [mk_row 1 7 "Maria" 3 5 None None;
                  mk_row 2 8 "Maria" 1 1 None None] 2 in
  snd (delete_birthday s 7 "MARIA") = 1
  /\ snd (delete_birthday s 7 "Bob") = 0
  /\ fst (delete_birthday s 7 "Bob") = s.
Proof.
  intros s.
  assert (Hw : wf s) by wf_rows.
  split; [|split].
  - apply (proj1 (proj2 (delete_birthday_count s 7 "MARIA" Hw))).
    eexists. split; [left; reflexivity | reflexivity].
  - apply (proj1 (proj2 (proj2 (proj2 (delete_birthday_count s 7 "Bob" Hw))))).
    intros r [<-|[<-|[]]]; reflexivity.
  - apply (proj1 (proj2 (proj2 (proj2 (delete_birthday_count s 7 "Bob" Hw))))).
    intros r [<-|[<-|[]]]; reflexivity.
Defined.

(** C9 as stated fails: with "Маша" stored, deleting "МАША", the same
    name in capitals, removes nothing and returns 0. *)
Lemma delete_birthday_cyrillic_counterexample :
  caseless_eqb "Маша" "МАША" = true
  /\ delete_birthday (db.mk [mk_row 1 7 "Маша" 14 2 None None] 1) 7 "МАША"
     = (db.mk [mk_row 1 7 "Маша" 14 2 None None] 1, 0).
Proof. split; reflexivity. Qed.

End Store.

(** ** Listing *)

Section Listing.

Import db.

Lemma ascii_compare_N (a b : ascii) :
  Ascii.compare a b = N.compare (N_of_ascii a) (N_of_ascii b).
Proof. reflexivity. Qed.

Lemma string_leb_trans (a b c : string) :
  String.leb a b = true -> String.leb b c = true -> String.leb a c = true.
Proof.
  unfold String.leb. revert b c.
  induction a as [|x a IH]; intros [|y b] [|z c]; cbn; try congruence.
  rewrite !ascii_compare_N.
  destruct (N.compare_spec (N_of_ascii x) (N_of_ascii y)) as [E1|E1|E1];
    destruct (N.compare_spec (N_of_ascii y) (N_of_ascii z)) as [E2|E2|E2];
    try congruence;
    destruct (N.compare_spec (N_of_ascii x) (N_of_ascii z)) as [E3|E3|E3];
    try congruence; try lia; auto.
  apply IH.
Qed.

Lemma order_leb_summary_le (a b : row) :
  order_leb a b = true <-> summary_le (summary_of a) (summary_of b).
Proof.
  unfold order_leb, summary_le. cbn.
  destruct (month a =? month b) eqn:Em; [destruct (day a =? day b) eqn:Ed|];
    unbool; rewrite ?Z.ltb_lt; intuition lia.
Qed.

Lemma order_leb_total (a b : row) :
  order_leb a b = false -> order_leb b a = true.
Proof.
  unfold order_leb. rewrite (Z.eqb_sym (month b)), (Z.eqb_sym (day b)).
  destruct (month a =? month b) eqn:Em; [destruct (day a =? day b) eqn:Ed|];
    unbool; rewrite ?Z.ltb_lt, ?Z.ltb_ge; try lia.
  intros H. destruct (String.leb_total (LOWER (name a)) (LOWER (name b)));
    congruence.
Qed.

Lemma order_leb_trans (a b c : row) :
  order_leb a b = true -> order_leb b c = true -> order_leb a c = true.
Proof.
  rewrite !order_leb_summary_le. unfold summary_le.
  intros [H1|[H1 [H2|[H2 H3]]]] [K1|[K1 [K2|[K2 K3]]]];
    first [ left; lia
          | right; split; [lia|];
            first [ left; lia
                  | right; split; [lia|];
                    eapply string_leb_trans; eauto ] ].
Qed.

Lemma insert_sorted_perm (r : row) (rs : list row) :
  Permutation (r :: rs) (insert_sorted r rs).
Proof.
  induction rs as [|x rs IH]; cbn; [reflexivity|].
  destruct (order_leb r x); [reflexivity|].
  rewrite perm_swap. constructor. exact IH.
Qed.

Lemma order_by_perm (rs : list row) : Permutation rs (order_by rs).
Proof.
  induction rs as [|r rs IH]; cbn; [constructor|].
  rewrite <- insert_sorted_perm. constructor. exact IH.
Qed.

Lemma insert_sorted_sorted (r : row) (rs : list row) :
  StronglySorted (fun a b => order_leb a b = true) rs ->
  StronglySorted (fun a b => order_leb a b = true) (insert_sorted r rs).
Proof.
  induction 1 as [|x rs Hs IH Hx]; cbn.
  - repeat constructor.
  - destruct (order_leb r x) eqn:E.
    + constructor; [constructor; assumption|].
      constructor; [exact E|].
      rewrite Forall_forall in *. intros z Hz.
      eapply order_leb_trans; eauto.
    + constructor; [exact IH|].
      rewrite Forall_forall in *. intros z Hz.
      apply (Permutation_in _ (Permutation_sym (insert_sorted_perm r rs)))
        in Hz.
      destruct Hz as [<-|Hz]; [apply order_leb_total, E | auto].
Qed.

Lemma order_by_sorted (rs : list row) :
  StronglySorted (fun a b => order_leb a b = true) (order_by rs).
Proof.
  induction rs as [|r rs IH]; cbn; [constructor|].
  apply insert_sorted_sorted, IH.
Qed.

Lemma sorted_map_summary (rs : list row) :
  StronglySorted (fun a b => order_leb a b = true) rs ->
  StronglySorted summary_le (map summary_of rs).
Proof.
  induction 1 as [|x rs Hs IH Hx]; cbn; constructor; [exact IH|].
  rewrite Forall_forall in *. intros z Hz.
  apply in_map_iff in Hz as (z0 & <- & Hz0).
  apply order_leb_summary_le. auto.
Qed.

Lemma order_by_map (f : row -> row) (rs : list row) :
  (forall a b, order_leb (f a) (f b) = order_leb a b) ->
  order_by (map f rs) = map f (order_by rs).
Proof.
  intros Hf. unfold order_by.
  induction rs as [|r rs IH]; cbn [map fold_right]; [reflexivity|].
  rewrite IH. generalize (fold_right insert_sorted [] rs) as l.
  induction l as [|x l IHl]; cbn; [reflexivity|].
  rewrite Hf. destruct (order_leb r x); cbn; congruence.
Qed.

Lemma list_birthdays_set_last_notified_year (s : t) (u i y : Z) :
  list_birthdays (set_last_notified_year s i y) u = list_birthdays s u.
Proof.
  unfold list_birthdays, set_last_notified_year. cbn [rows].
  rewrite filter_map_stable
    by (intros r; destruct (id r =? i); reflexivity).
  rewrite order_by_map
    by (intros a b; destruct (id a =? i), (id b =? i); reflexivity).
  rewrite map_map. apply map_ext.
  intros r. destruct (id r =? i); reflexivity.
Qed.

(** C8, as amended: [list_birthdays] returns the summaries of the
    owner's rows, each once, in the order month, then day, then name
    with its ASCII capitals folded to small letters and compared byte
    by byte; a summary has the four fields name, day, month and year
    and nothing else, so [last_notified_year], [id] and the owner never
    reach the caller.  Rows dated (3, 5), (1, 5), (1, 1) (day, month)
    come back as (1, 1), (1, 5), (3, 5); on one date "bob", "Ann" and
    "Carl" come back as "Ann", "bob", "Carl"; the folding turns the 26
    letters A..Z into a..z and leaves their neighbours alone. *)
Theorem list_birthdays_sorted (s : t) (u : Z) :
  StronglySorted summary_le (list_birthdays s u)
  /\ Permutation (map summary_of (get_birthdays_for_user s u))
                 (list_birthdays s u)
  /\ (forall i y, list_birthdays (set_last_notified_year s i y) u
                  = list_birthdays s u)
  /\ map (fun x => (s_day x, s_month x))
         (list_birthdays
            (upsert_birthday
               (upsert_birthday
                  (upsert_birthday init_db 7 "Ann" 3 5 None)
                  7 "Bob" 1 5 None)
               7 "Eve" 1 1 None) 7)
     = [(1, 1); (1, 5); (3, 5)]
  /\ map s_name
         (list_birthdays
            (upsert_birthday
               (upsert_birthday
                  (upsert_birthday init_db 7 "bob" 1 5 None)
                  7 "Carl" 1 5 None)
               7 "Ann" 1 5 None) 7)
     = ["Ann"; "bob"; "Carl"]
  /\ LOWER "@ABCDEFGHIJKLMNOPQRSTUVWXYZ[`az{"
     = "@abcdefghijklmnopqrstuvwxyz[`az{".
Proof.
  split; [|split; [|split; [|split; [|split]]]].
  - apply sorted_map_summary, order_by_sorted.
  - apply Permutation_map, order_by_perm.
  - intros i y. apply list_birthdays_set_last_notified_year.
  - reflexivity.
  - reflexivity.
  - reflexivity.
Qed.

(** C8 as stated fails: beyond ASCII the names are not ordered without
    regard to case.  On one date "аня" comes before "Боря" once the
    case is folded, yet [list_birthdays] returns "Боря" first: its
    capital has the smaller bytes. *)
Lemma list_birthdays_cyrillic_counterexample :
  String.ltb (caseless_fold "аня") (caseless_fold "Боря") = true
  /\ map s_name
         (list_birthdays
            (upsert_birthday (upsert_birthday init_db 7 "аня" 1 5 None)
                             7 "Боря" 1 5 None) 7)
     = ["Боря"; "аня"].
Proof. split; reflexivity. Qed.

End Listing.

(** ** The sweep *)

Section Sweep.

Import db bot sweep.

Lemma check_row_judge (D : transport) (T : datetime.date) (u : Z) (b : row)
      (w : world) :
  check_row D T u b w =
  match judge T b with
  | Abort e => (Raise e, w)
  | Skip => (Ok tt, w)
  | Due occ dl =>
      let text := reminder_text (name b) occ dl in
      if D (List.length (sent w)) u text
      then (Ok tt,
            mk_world (set_last_notified_year (store w) (id b)
                                             (datetime.year occ))
                     (sent w ++ [mk_event (id b) u text true]))
      else (Ok tt,
            mk_world (store w) (sent w ++ [mk_event (id b) u text false]))
  end.
Proof.
  unfold check_row, judge.
  destruct (next_occurrence (day b) (month b) T); [|reflexivity].
  cbv zeta. destruct (negb _); [reflexivity|].
  destruct (py.opt_eqb _ _); reflexivity.
Qed.

Lemma for_each_app {A : Type} (body : A -> step) (xs ys : list A)
      (w : world) :
  for_each body (xs ++ ys) w =
  match for_each body xs w with
  | (Ok _, w') => for_each body ys w'
  | (Raise e, w') => (Raise e, w')
  end.
Proof.
  revert w. induction xs as [|x xs IH]; intros w; cbn; [reflexivity|].
  destruct (body x w) as [[[]|e] w']; [apply IH | reflexivity].
Qed.

Lemma for_each_map {A B : Type} (f : A -> B) (body : B -> step)
      (xs : list A) (w : world) :
  for_each body (map f xs) w = for_each (fun x => body (f x)) xs w.
Proof.
  revert w. induction xs as [|x xs IH]; intros w; cbn; [reflexivity|].
  destruct (body (f x) w) as [[[]|e] w']; [apply IH | reflexivity].
Qed.

Lemma length_snoc {A : Type} (l : list A) (x : A) :
  List.length (l ++ [x]) = S (List.length l).
Proof. rewrite length_app. cbn. lia. Qed.

(** The loop over a work list does what the plan says: it ends as
    the plan ends, it makes the calls of the plan in order, and it
    marks the rows whose call was delivered. *)
Lemma for_each_visit_plan (D : transport) (T : datetime.date)
      (l : list (Z * row)) (w : world) :
  for_each (visit D T) l w =
  (snd (plan T l),
   mk_world (marked (marks D (List.length (sent w)) (fst (plan T l)))
                    (store w))
            (sent w ++ deliveries D (List.length (sent w))
                                  (fst (plan T l)))).
Proof.
  revert w. induction l as [|[u b] l IH]; intros w.
  - cbn. rewrite app_nil_r. destruct w; reflexivity.
  - cbn [for_each plan]. unfold visit at 1. cbn [fst snd].
    rewrite check_row_judge. destruct (judge T b) as [e| |occ dl].
    + cbn. rewrite app_nil_r. destruct w; reflexivity.
    + apply IH.
    + cbv zeta. cbn [fst snd marks deliveries].
      unfold due_text at 1 3. cbn [due_row due_occ due_days due_chat].
      destruct (D (List.length (sent w)) u (reminder_text (name b) occ dl)).
      * rewrite IH. cbn [store sent]. rewrite length_snoc.
        rewrite <- app_assoc. reflexivity.
      * rewrite IH. cbn [store sent]. rewrite length_snoc.
        rewrite <- app_assoc. reflexivity.
Qed.

Lemma plan_rows (T : datetime.date) (l : list (Z * row)) (d : due) :
  In d (fst (plan T l)) ->
  In (due_chat d, due_row d) l
  /\ judge T (due_row d) = Due (due_occ d) (due_days d).
Proof.
  induction l as [|[u b] l IH]; cbn; [tauto|].
  destruct (judge T b) as [e| |occ dl] eqn:E; cbn.
  - tauto.
  - intros H. destruct (IH H). auto.
  - intros [<-|H]; cbn; [auto|]. destruct (IH H). auto.
Qed.

(** A sweep that ends well has planned every row that was due. *)
Lemma plan_complete (T : datetime.date) (l : list (Z * row)) (u : Z)
      (b : row) (occ : datetime.date) (dl : Z) :
  snd (plan T l) = Ok tt -> In (u, b) l -> judge T b = Due occ dl ->
  In (mk_due u b occ dl) (fst (plan T l)).
Proof.
  induction l as [|[u' b'] l IH]; cbn; [tauto|].
  destruct (judge T b') as [e| |occ' dl'] eqn:E; cbn.
  - discriminate.
  - intros Hok [[= -> ->]|Hin] Hj; [congruence | auto].
  - intros Hok [[= -> ->]|Hin] Hj.
    + left. congruence.
    + right. auto.
Qed.

Lemma plan_ids (T : datetime.date) (l : list (Z * row)) :
  NoDup (map (fun p => id (snd p)) l) ->
  NoDup (map (fun d => id (due_row d)) (fst (plan T l))).
Proof.
  induction l as [|[u b] l IH]; cbn; [constructor|].
  intros H. inversion H as [|? ? Hn Hd]; subst.
  destruct (judge T b) as [e| |occ dl]; cbn; [constructor | auto |].
  constructor; [|auto].
  intros Hin. apply Hn. apply in_map_iff in Hin as (d & Hd1 & Hd2).
  apply plan_rows in Hd2 as [Hd2 _].
  apply in_map_iff. exists (due_chat d, due_row d). auto.
Qed.

Lemma deliveries_requests (D : transport) (n : nat) (ds : list due) :
  map request (deliveries D n ds) = map request_of ds.
Proof.
  revert n. induction ds as [|d ds IH]; intros n; cbn; [reflexivity|].
  rewrite IH. reflexivity.
Qed.

Lemma deliveries_ids (D : transport) (n : nat) (ds : list due) :
  map ev_id (deliveries D n ds) = map (fun d => id (due_row d)) ds.
Proof.
  revert n. induction ds as [|d ds IH]; intros n; cbn; [reflexivity|].
  rewrite IH. reflexivity.
Qed.

Lemma deliveries_due (D : transport) (n : nat) (ds : list due) (e : event) :
  In e (deliveries D n ds) ->
  exists d, In d ds /\ ev_id e = id (due_row d) /\ ev_chat e = due_chat d
            /\ ev_text e = due_text d.
Proof.
  revert n. induction ds as [|d ds IH]; intros n; cbn; [tauto|].
  intros [<-|H].
  - exists d. cbn. auto.
  - destruct (IH _ H) as (d' & Hd & H'). exists d'. auto.
Qed.

Lemma due_delivered (D : transport) (n : nat) (ds : list due) (d : due) :
  In d ds ->
  exists e, In e (deliveries D n ds) /\ ev_id e = id (due_row d)
            /\ ev_chat e = due_chat d /\ ev_text e = due_text d.
Proof.
  revert n. induction ds as [|d' ds IH]; intros n; cbn; [tauto|].
  intros [->|H].
  - eexists. split; [left; reflexivity|]. cbn. auto.
  - destruct (IH (S n) H) as (e & He & H'). exists e. auto.
Qed.

(** A row is marked only for a call that was delivered. *)
Lemma marks_delivered (D : transport) (n : nat) (ds : list due) (i y : Z) :
  In (i, y) (marks D n ds) ->
  exists d e, In d ds /\ In e (deliveries D n ds)
              /\ ev_id e = id (due_row d) /\ ev_ok e = true
              /\ i = id (due_row d) /\ y = datetime.year (due_occ d).
Proof.
  revert n. induction ds as [|d ds IH]; intros n; cbn; [tauto|].
  rewrite in_app_iff. intros [H|H].
  - destruct (D n (due_chat d) (due_text d)) eqn:E; [|destruct H].
    destruct H as [[= <- <-]|[]].
    exists d. eexists. split; [left; reflexivity|].
    split; [left; reflexivity|]. cbn. auto.
  - destruct (IH _ H) as (d' & e' & H1 & H2 & H3). exists d', e'. auto.
Qed.

(** When no two reminders are for the same row, a delivered call
    marks its row with the year of the occurrence. *)
Lemma delivered_marks (D : transport) (n : nat) (ds : list due) (d : due)
      (e : event) :
  NoDup (map (fun d => id (due_row d)) ds) ->
  In d ds -> In e (deliveries D n ds) ->
  ev_id e = id (due_row d) -> ev_ok e = true ->
  In (id (due_row d), datetime.year (due_occ d)) (marks D n ds).
Proof.
  revert n. induction ds as [|d0 ds IH]; intros n; cbn; [tauto|].
  intros Hnd. inversion Hnd as [|? ? Hn Hnd']; subst.
  intros [->|Hd] [<-|He] Hid Hok; rewrite in_app_iff.
  - cbn in Hok. rewrite Hok. left. left. reflexivity.
  - exfalso. apply Hn. rewrite <- Hid, <- (deliveries_ids D (S n)).
    apply in_map. exact He.
  - exfalso. apply Hn. cbn in Hid. rewrite Hid.
    apply (in_map (fun d => id (due_row d))). exact Hd.
  - right. eauto.
Qed.

Lemma marks_ids (D : transport) (n : nat) (ds : list due) :
  NoDup (map (fun d => id (due_row d)) ds) ->
  NoDup (map fst (marks D n ds)).
Proof.
  revert n. induction ds as [|d ds IH]; intros n; cbn; [constructor|].
  intros Hnd. inversion Hnd as [|? ? Hn Hnd']; subst.
  destruct (D n (due_chat d) (due_text d)); cbn; [|auto].
  constructor; [|auto].
  intros Hin. apply Hn. apply in_map_iff in Hin as ([i y] & Hi & Hm).
  cbn in Hi. subst i.
  apply marks_delivered in Hm as (d' & _ & Hd' & _ & _ & _ & -> & _).
  apply (in_map (fun d => id (due_row d))). exact Hd'.
Qed.

(** *** What marking does to the table *)

Lemma set_last_notified_year_rows (s : t) (i y : Z) (r : row) :
  In r (rows (set_last_notified_year s i y)) <->
  exists r0, In r0 (rows s)
             /\ ((id r0 <> i /\ r = r0) \/ (id r0 = i /\ r = notified r0 y)).
Proof.
  unfold set_last_notified_year. cbn [rows]. rewrite in_map_iff.
  split; intros (r0 & H1 & H2); exists r0.
  - destruct (id r0 =? i) eqn:E; unbool; subst r.
    + split; [exact H2|]. right. split; [exact E | reflexivity].
    + split; [exact H2|]. left. split; [exact E | reflexivity].
  - destruct H2 as [[Hn ->]|[He ->]].
    + apply Z.eqb_neq in Hn. rewrite Hn. auto.
    + apply Z.eqb_eq in He. rewrite He. auto.
Qed.

Lemma marked_cons (m : Z * Z) (ms : list (Z * Z)) (s : t) :
  marked (m :: ms) s = marked ms (set_last_notified_year s (fst m) (snd m)).
Proof. reflexivity. Qed.

Lemma wf_marked (ms : list (Z * Z)) (s : t) : wf s -> wf (marked ms s).
Proof.
  revert s. induction ms as [|m ms IH]; intros s H; [exact H|].
  rewrite marked_cons. apply IH, wf_set_last_notified_year, H.
Qed.

(** A row that no mark names stays as it is. *)
Lemma marked_other (ms : list (Z * Z)) (s : t) (r : row) :
  In r (rows s) -> ~ In (id r) (map fst ms) -> In r (rows (marked ms s)).
Proof.
  revert s. induction ms as [|m ms IH]; intros s Hr Hn; [exact Hr|].
  rewrite marked_cons. apply IH.
  - apply set_last_notified_year_rows. exists r. split; [exact Hr|].
    left. split; [|reflexivity]. intros E. apply Hn. left. auto.
  - intros H. apply Hn. right. exact H.
Qed.

(** A row named by one mark only carries the year of that mark. *)
Lemma marked_this (ms : list (Z * Z)) (s : t) (r : row) (y : Z) :
  NoDup (map fst ms) -> In (id r, y) ms -> In r (rows s) ->
  In (notified r y) (rows (marked ms s)).
Proof.
  revert s. induction ms as [|m ms IH]; intros s Hnd Hm Hr; [destruct Hm|].
  inversion Hnd as [|? ? Hn Hnd']; subst. rewrite marked_cons.
  destruct Hm as [->|Hm].
  - apply marked_other.
    + apply set_last_notified_year_rows. exists r. cbn. auto.
    + exact Hn.
  - apply IH; auto.
    apply set_last_notified_year_rows. exists r. split; [exact Hr|].
    left. split; [|reflexivity]. intros E. apply Hn. rewrite <- E.
    apply (in_map fst) in Hm. exact Hm.
Qed.

(** Marking rows of other owners does not change what is read for
    an owner. *)
Lemma get_birthdays_for_user_set_other (s : t) (i y u : Z) :
  (forall r, In r (rows s) -> id r = i -> user_id r <> u) ->
  get_birthdays_for_user (set_last_notified_year s i y) u
  = get_birthdays_for_user s u.
Proof.
  unfold get_birthdays_for_user, set_last_notified_year. cbn [rows].
  induction (rows s) as [|r rs IH]; cbn [map filter In]; [reflexivity|].
  intros H. rewrite IH by auto.
  destruct (id r =? i) eqn:E; [|reflexivity].
  apply Z.eqb_eq in E. cbn [user_id].
  pose proof (H r (or_introl eq_refl) E) as Hu.
  apply Z.eqb_neq in Hu. rewrite Hu. reflexivity.
Qed.

Lemma get_birthdays_for_user_marked_other (ms : list (Z * Z)) (s : t)
      (u : Z) :
  (forall i r, In i (map fst ms) -> In r (rows s) -> id r = i ->
               user_id r <> u) ->
  get_birthdays_for_user (marked ms s) u = get_birthdays_for_user s u.
Proof.
  revert s. induction ms as [|m ms IH]; intros s H; [reflexivity|].
  rewrite marked_cons, IH.
  - apply get_birthdays_for_user_set_other.
    intros r Hr E. apply (H (fst m) r); [left; reflexivity | exact Hr | exact E].
  - intros i r Hi Hr E.
    apply set_last_notified_year_rows in Hr as (r0 & Hr0 & [[_ ->]|[_ ->]]).
    + apply (H i r0); [right; exact Hi | exact Hr0 | exact E].
    + apply (H i r0); [right; exact Hi | exact Hr0 | exact E].
Qed.

(** *** The work list *)

Lemma in_get_birthdays_for_user (s : t) (u : Z) (r : row) :
  In r (get_birthdays_for_user s u) <-> In r (rows s) /\ user_id r = u.
Proof.
  unfold get_birthdays_for_user. rewrite filter_In, Z.eqb_eq. tauto.
Qed.

Lemma in_worklist (s : t) (users : list Z) (u : Z) (r : row) :
  In (u, r) (worklist s users) <->
  In u users /\ In r (rows s) /\ user_id r = u.
Proof.
  unfold worklist. rewrite in_flat_map. split.
  - intros (u' & Hu & H). apply in_map_iff in H as (r' & [= <- <-] & Hr).
    apply in_get_birthdays_for_user in Hr. tauto.
  - intros (Hu & Hr). exists u. split; [exact Hu|].
    apply in_map. apply in_get_birthdays_for_user. exact Hr.
Qed.

Lemma unique_rows_ids (rs : list row) :
  unique_rows rs -> NoDup (map id rs).
Proof.
  induction rs as [|r rs IH]; cbn; [constructor|].
  intros [Hk Hu]. constructor; [|auto].
  intros Hin. apply in_map_iff in Hin as (x & Hx & Hin).
  destruct (Hk x Hin) as [H _]. auto.
Qed.

Lemma NoDup_filter_ids (p : row -> bool) (rs : list row) :
  NoDup (map id rs) -> NoDup (map id (filter p rs)).
Proof.
  induction rs as [|r rs IH]; cbn; [auto|].
  intros H. inversion H as [|? ? Hn Hd]; subst.
  destruct (p r); cbn; [|auto].
  constructor; [|auto].
  intros Hin. apply Hn. apply in_map_iff in Hin as (x & Hx & Hin).
  apply filter_In in Hin as [Hin _]. apply in_map_iff. eauto.
Qed.

(** No row is reached twice. *)
Lemma worklist_ids (s : t) (users : list Z) :
  wf s -> NoDup users ->
  NoDup (map (fun p => id (snd p)) (worklist s users)).
Proof.
  intros [Hu _] Hnd. induction Hnd as [|u us Hn Hnd IH]; cbn; [constructor|].
  rewrite map_app, map_map. cbn [snd].
  apply NoDup_app; [| exact IH |].
  - apply NoDup_filter_ids, unique_rows_ids, Hu.
  - intros i H1 H2.
    apply in_map_iff in H1 as (r1 & <- & H1).
    apply in_map_iff in H2 as ([u2 r2] & E & H2). cbn in E.
    apply in_get_birthdays_for_user in H1 as [H1 E1].
    apply in_worklist in H2 as (Hu2 & H2 & E2).
    assert (r2 = r1) by (apply (unique_rows_same_id (rows s)); auto).
    subst r2. congruence.
Qed.

Lemma in_distinct (seen l : list Z) (x : Z) :
  In x (distinct seen l) <-> In x l /\ ~ In x seen.
Proof.
  revert seen. induction l as [|a l IH]; intros seen; cbn; [tauto|].
  destruct (existsb (Z.eqb a) seen) eqn:E.
  - rewrite IH. apply existsb_exists in E as (z & Hz & Ez).
    apply Z.eqb_eq in Ez. subst z. split; [tauto|].
    intros [[->|H] Hn]; tauto.
  - assert (Ha : ~ In a seen).
    { intros H. assert (existsb (Z.eqb a) seen = true)
        by (apply existsb_exists; exists a; split; [auto|apply Z.eqb_refl]).
      congruence. }
    cbn. rewrite IH. cbn. split.
    + intros [->|[H Hn]]; [tauto|]. split; [tauto|]. intros Hs. apply Hn.
      right. exact Hs.
    + intros [[->|H] Hn]; [tauto|].
      destruct (Z.eq_dec a x) as [->|Hne]; [tauto|].
      right. split; [exact H|]. intros [E'|Hs]; tauto.
Qed.

Lemma NoDup_distinct (seen l : list Z) : NoDup (distinct seen l).
Proof.
  revert seen. induction l as [|a l IH]; intros seen; cbn; [constructor|].
  destruct (existsb (Z.eqb a) seen); [apply IH|].
  constructor; [|apply IH].
  rewrite in_distinct. cbn. tauto.
Qed.

Lemma insert_id_perm (x : Z) (l : list Z) :
  Permutation (x :: l) (insert_id x l).
Proof.
  induction l as [|y l IH]; cbn; [reflexivity|].
  destruct (x <=? y); [reflexivity|].
  rewrite perm_swap. constructor. exact IH.
Qed.

Lemma sort_ids_perm (l : list Z) : Permutation l (sort_ids l).
Proof.
  unfold sort_ids. induction l as [|x l IH]; cbn [fold_right]; [constructor|].
  rewrite <- insert_id_perm. constructor. exact IH.
Qed.

Lemma NoDup_get_all_users (s : t) : NoDup (get_all_users s).
Proof.
  unfold get_all_users.
  apply (Permutation_NoDup (sort_ids_perm _)), NoDup_distinct.
Qed.

Lemma in_get_all_users (s : t) (u : Z) :
  In u (get_all_users s) <-> exists r, In r (rows s) /\ user_id r = u.
Proof.
  unfold get_all_users.
  assert (H : In u (sort_ids (distinct [] (map user_id (rows s))))
              <-> In u (distinct [] (map user_id (rows s)))).
  { split; apply Permutation_in;
      [apply Permutation_sym|]; apply sort_ids_perm. }
  rewrite H, in_distinct, in_map_iff. cbn.
  split; [intros [(r & E & Hr) _]; eauto | intros (r & Hr & E); eauto].
Qed.

(** Every row of the table is on the work list of the sweep. *)
Lemma worklist_all (s : t) (r : row) :
  In r (rows s) -> In (user_id r, r) (worklist s (get_all_users s)).
Proof.
  intros Hr. apply in_worklist. split; [|auto].
  apply in_get_all_users. eauto.
Qed.

(** *** The two loops and the work list *)

Lemma check_user_visit (D : transport) (T : datetime.date) (u : Z)
      (w : world) :
  check_user D T u w
  = for_each (visit D T)
             (map (pair u) (get_birthdays_for_user (store w) u)) w.
Proof. unfold check_user. rewrite for_each_map. reflexivity. Qed.

Lemma worklist_ext (s1 s2 : t) (users : list Z) :
  (forall u, In u users ->
             get_birthdays_for_user s1 u = get_birthdays_for_user s2 u) ->
  worklist s1 users = worklist s2 users.
Proof.
  unfold worklist.
  induction users as [|u us IH]; intros H; cbn [flat_map]; [reflexivity|].
  rewrite (H u (or_introl eq_refl)), IH; [reflexivity|].
  intros u' Hu'. apply H. right. exact Hu'.
Qed.

(** Reading the rows of each owner when the loop reaches the owner
    gives the rows the table had at the start: the marks set in
    between are on rows of other owners. *)
Lemma for_each_check_user_worklist (D : transport) (T : datetime.date)
      (users : list Z) (w : world) :
  wf (store w) -> NoDup users ->
  for_each (check_user D T) users w
  = for_each (visit D T) (worklist (store w) users) w.
Proof.
  intros Hw Hnd. revert w Hw.
  induction Hnd as [|u us Hn Hnd IH]; intros w Hw; [reflexivity|].
  cbn [for_each worklist flat_map]. rewrite for_each_app.
  rewrite check_user_visit.
  rewrite (for_each_visit_plan D T (map (pair u) _) w).
  set (l := map (pair u) (get_birthdays_for_user (store w) u)).
  destruct (snd (plan T l)) as [[]|e]; [|reflexivity].
  set (ms := marks D (List.length (sent w)) (fst (plan T l))).
  rewrite IH by (apply wf_marked, Hw). cbn [store].
  f_equal. apply worklist_ext. intros u' Hu'.
  apply get_birthdays_for_user_marked_other.
  intros i r Hi Hr E Eu. subst u'.
  apply in_map_iff in Hi as ([i' y] & Ei & Hm). cbn in Ei. subst i'.
  apply marks_delivered in Hm as (d & _ & Hd & _ & _ & _ & Hid & _).
  apply plan_rows in Hd as [Hd _]. unfold l in Hd.
  apply in_map_iff in Hd as (b & [= Hc Hb] & Hin).
  apply in_get_birthdays_for_user in Hin as [Hin Hub].
  assert (r = b).
  { destruct Hw as [Hu _].
    apply (unique_rows_same_id (rows (store w))); auto. congruence. }
  subst r. apply Hn. congruence.
Qed.

(** [daily_check] in two stages: in a table that meets its
    constraints the sweep ends as the plan ends, makes the calls of
    the plan in order and marks the rows whose call was delivered. *)
Lemma daily_check_plan (D : transport) (T : datetime.date) (s : t) :
  wf s ->
  daily_check D T s
  = (snd (plan T (worklist s (get_all_users s))),
     mk_world (marked (marks D 0 (dues T s)) s)
              (deliveries D 0 (dues T s))).
Proof.
  intros Hw. unfold daily_check, dues.
  rewrite for_each_check_user_worklist;
    [| exact Hw | apply NoDup_get_all_users].
  rewrite for_each_visit_plan. reflexivity.
Qed.

Lemma dues_ids (T : datetime.date) (s : t) :
  wf s -> NoDup (map (fun d => id (due_row d)) (dues T s)).
Proof.
  intros Hw. apply plan_ids, worklist_ids;
    [exact Hw | apply NoDup_get_all_users].
Qed.

(** A reminder is due for a row of the table, in the chat of its
    owner, and the loop body found it due. *)
Lemma dues_rows (T : datetime.date) (s : t) (d : due) :
  In d (dues T s) ->
  In (due_row d) (rows s) /\ user_id (due_row d) = due_chat d
  /\ judge T (due_row d) = Due (due_occ d) (due_days d).
Proof.
  intros H. apply plan_rows in H as [H1 H2].
  apply in_worklist in H1. tauto.
Qed.

(** *** The claims about the sweep *)

Lemma calls_for_none (i : Z) (es : list event) :
  (forall e, In e es -> ev_id e <> i) -> calls_for i es = [].
Proof.
  unfold calls_for. induction es as [|e es IH]; cbn; [reflexivity|].
  intros H. pose proof (H e (or_introl eq_refl)) as He.
  apply Z.eqb_neq in He. rewrite He. apply IH. intros x Hx. apply H.
  right. exact Hx.
Qed.

Lemma calls_for_one (i : Z) (es : list event) (e : event) :
  NoDup (map ev_id es) -> In e es -> ev_id e = i -> calls_for i es = [e].
Proof.
  unfold calls_for. induction es as [|x es IH]; cbn; [tauto|].
  intros Hnd. inversion Hnd as [|? ? Hn Hnd']; subst.
  intros [->|He] Hi.
  - rewrite Hi, Z.eqb_refl. f_equal. apply calls_for_none.
    intros y Hy E. apply Hn. rewrite Hi, <- E. apply in_map. exact Hy.
  - destruct (ev_id x =? i) eqn:E; [|auto].
    apply Z.eqb_eq in E. exfalso. apply Hn. rewrite E, <- Hi.
    apply in_map. exact He.
Qed.

Lemma judge_not_yet_due (T : datetime.date) (r : row) (occ : datetime.date) :
  next_occurrence (day r) (month r) T = Ok occ ->
  DAYS_BEFORE < datetime.sub_days occ T ->
  judge T r = Skip.
Proof.
  intros Ho Hd. unfold judge. rewrite Ho. cbv zeta.
  replace (datetime.sub_days occ T <=? DAYS_BEFORE) with false
    by (symmetry; apply Z.leb_gt; exact Hd).
  rewrite andb_false_r. reflexivity.
Qed.

Lemma judge_due (T : datetime.date) (r : row) (occ : datetime.date) :
  next_occurrence (day r) (month r) T = Ok occ ->
  0 <= datetime.sub_days occ T <= DAYS_BEFORE ->
  last_notified_year r <> Some (datetime.year occ) ->
  judge T r = Due occ (datetime.sub_days occ T).
Proof.
  intros Ho [H0 H3] Hl. unfold judge. rewrite Ho. cbv zeta.
  apply Z.leb_le in H0, H3. rewrite H0, H3. cbn [andb negb].
  destruct (last_notified_year r) as [y|]; cbn; [|reflexivity].
  destruct (y =? datetime.year occ) eqn:E; [|reflexivity].
  apply Z.eqb_eq in E. congruence.
Qed.

Lemma judge_notified (T : datetime.date) (r : row) (occ : datetime.date) :
  next_occurrence (day r) (month r) T = Ok occ ->
  judge T (notified r (datetime.year occ)) <> Due occ (datetime.sub_days occ T).
Proof.
  intros Ho. unfold judge. cbn [notified day month last_notified_year].
  rewrite Ho. cbv zeta. destruct (negb _); [discriminate|].
  cbn. rewrite Z.eqb_refl. discriminate.
Qed.

(** C5: a row whose next occurrence is more than [DAYS_BEFORE] days
    after [today] gets no call to the transport in the sweep of that
    day, whatever the transport does and however the sweep ends. *)
Theorem daily_check_skips_far_rows
        (D : transport) (T : datetime.date) (s : t) (r : row)
        (occ : datetime.date) :
  wf s -> In r (rows s) ->
  next_occurrence (day r) (month r) T = Ok occ ->
  DAYS_BEFORE < datetime.sub_days occ T ->
  calls_for (id r) (sent (snd (daily_check D T s))) = [].
Proof.
  intros Hw Hr Ho Hd. rewrite daily_check_plan by exact Hw. cbn [snd sent].
  apply calls_for_none. intros e He E.
  apply deliveries_due in He as (d & Hd1 & Hid & _).
  apply dues_rows in Hd1 as (Hin & _ & Hj).
  assert (due_row d = r).
  { destruct Hw as [Hu _].
    apply (unique_rows_same_id (rows s)); auto. congruence. }
  subst r. rewrite (judge_not_yet_due T _ occ Ho Hd) in Hj. discriminate.
Qed.

Lemma daily_check_skips_far_rows_witness :
  calls_for 1
            (sent (snd (daily_check
                          (fun _ _ _ => true) (datetime.mk 2024 2 10)
                          (db.mk [mk_row 1 7 "Maria" 14 2 None None] 1))))
  = [].
Proof.
  apply (daily_check_skips_far_rows
           (fun _ _ _ => true) (datetime.mk 2024 2 10)
           (db.mk [mk_row 1 7 "Maria" 14 2 None None] 1)
           (mk_row 1 7 "Maria" 14 2 None None) (datetime.mk 2024 2 14)).
  - wf_rows.
  - left. reflexivity.
  - reflexivity.
  - reflexivity.
Defined.

Lemma NoDup_map_eq {A B : Type} (f : A -> B) (l : list A) (a b : A) :
  NoDup (map f l) -> In a l -> In b l -> f a = f b -> a = b.
Proof.
  induction l as [|x l IH]; cbn; [tauto|].
  intros Hnd. inversion Hnd as [|? ? Hn Hnd']; subst.
  intros [->|Ha] [->|Hb] E; auto.
  - exfalso. apply Hn. rewrite E. apply in_map. exact Hb.
  - exfalso. apply Hn. rewrite <- E. apply in_map. exact Ha.
Qed.

Lemma daily_check_calls_ids (D : transport) (T : datetime.date) (s : t) :
  wf s -> NoDup (map ev_id (sent (snd (daily_check D T s)))).
Proof.
  intros Hw. rewrite daily_check_plan by exact Hw. cbn [snd sent].
  rewrite deliveries_ids. apply dues_ids, Hw.
Qed.

(** Whether a call is delivered changes nothing but the mark of its
    own row.  Under any two transports the sweep ends the same way and
    asks for the same calls in the same order; and the row of a failed
    call is in the table afterwards exactly as it was, its
    [last_notified_year] included. *)
Lemma daily_check_failure_isolated
        (D D' : transport) (T : datetime.date) (s : t) :
  wf s ->
  fst (daily_check D T s) = fst (daily_check D' T s)
  /\ map request (sent (snd (daily_check D T s)))
     = map request (sent (snd (daily_check D' T s)))
  /\ (forall e r, In e (sent (snd (daily_check D T s))) ->
                  ev_ok e = false -> In r (rows s) -> id r = ev_id e ->
                  In r (rows (store (snd (daily_check D T s))))).
Proof.
  intros Hw. pose proof (daily_check_calls_ids D T s Hw) as Hnd.
  rewrite !daily_check_plan in * by exact Hw. cbn [fst snd sent store] in *.
  split; [reflexivity|]. split.
  - rewrite !deliveries_requests. reflexivity.
  - intros e r He Hok Hr Hid. apply marked_other; [exact Hr|].
    intros Hin. apply in_map_iff in Hin as ([i y] & Ei & Hm).
    cbn in Ei. subst i.
    apply marks_delivered in Hm as (d & e' & _ & He' & Hid' & Hok' & Hi & _).
    assert (e = e').
    { apply (NoDup_map_eq ev_id (deliveries D 0 (dues T s))); auto.
      congruence. }
    subst e'. congruence.
Qed.

(** C4 (the code breaks it): after a delivery that failed the sweep
    should leave that row unmarked and still go through every row and
    owner that remains.  The first half holds.  The second does not:
    Al's reminder fails and is passed over, then [next_occurrence]
    raises on Ann's 29 February, outside the [try], and the sweep ends
    there; Cy, the owner's next row, and Bob, the next owner, are both
    due and get neither a call nor a mark. *)
Theorem daily_check_failure_then_feb29 :
  let s := db.mk [mk_row 1 1 "Al" 2 6 None None;
                  mk_row 2 1 "Ann" 29 2 None None;
                  mk_row 3 1 "Cy" 3 6 None None;
                  mk_row 4 2 "Bob" 2 6 None None] 4 in
  let T := datetime.mk 2023 6 1 in
  let failing : transport := fun _ _ _ => false in
  wf s
  /\ get_all_users s = [1; 2]
  /\ judge T (mk_row 3 1 "Cy" 3 6 None None) = Due (datetime.mk 2023 6 3) 2
  /\ judge T (mk_row 4 2 "Bob" 2 6 None None) = Due (datetime.mk 2023 6 2) 1
  /\ daily_check failing T s
     = (Raise ValueError,
        mk_world s [mk_event 1 1 (reminder_text "Al" (datetime.mk 2023 6 2) 1)
                             false]).
Proof.
  cbv zeta. split; [wf_rows|]. repeat split.
Qed.

(** C3 (the code breaks it): a row that is due tomorrow and was never
    notified should get exactly one reminder from a sweep whose
    deliveries succeed.  With a 29 February stored before it (which
    [parse_date] accepts) and [today] in a year that is not a leap
    year, [next_occurrence] raises on the earlier row outside the
    [try], the sweep ends there, and the due row gets no call and no
    mark. *)
Theorem daily_check_stops_at_feb29 :
  let s := upsert_birthday
             (upsert_birthday init_db 1 "Ann" 29 2 None)
             2 "Bob" 2 6 None in
  let T := datetime.mk 2023 6 1 in
  let bob := mk_row 2 2 "Bob" 2 6 None None in
  parse_date "29.02" = Ok (29, 2, None)
  /\ In bob (rows s)
  /\ next_occurrence (day bob) (month bob) T = Ok (datetime.mk 2023 6 2)
  /\ datetime.sub_days (datetime.mk 2023 6 2) T = 1
  /\ forall D, daily_check D T s = (Raise ValueError, mk_world s []).
Proof.
  cbv zeta. split; [reflexivity|]. split; [right; left; reflexivity|].
  split; [reflexivity|]. split; [reflexivity|].
  intros D. reflexivity.
Qed.

End Sweep.

(** ** Day counts *)

Section Ordinals.

Import datetime.

Lemma month_cases (m : Z) :
  1 <= m <= 12 ->
  m = 1 \/ m = 2 \/ m = 3 \/ m = 4 \/ m = 5 \/ m = 6 \/ m = 7 \/ m = 8
  \/ m = 9 \/ m = 10 \/ m = 11 \/ m = 12.
Proof. lia. Qed.

Ltac each_month m H :=
  let C := fresh "C" in
  pose proof (month_cases m H) as C;
  repeat (destruct C as [C|C]; [subst m|]); [..|subst m].

Lemma days_before_year_succ (y : Z) :
  days_before_year (y + 1)
  = days_before_year y + 365 + (if is_leap y then 1 else 0).
Proof.
  unfold days_before_year, is_leap. cbv zeta.
  replace (y + 1 - 1) with y by lia.
  destruct (y mod 4 =? 0) eqn:E4; destruct (y mod 100 =? 0) eqn:E100;
    destruct (y mod 400 =? 0) eqn:E400; cbn [andb orb negb];
    rewrite ?Z.eqb_eq, ?Z.eqb_neq in *;
    Z.to_euclidean_division_equations; lia.
Qed.

(** The days of a year before a month and the days of that month do
    not reach into a later month, and none go past the end of the
    year. *)
Lemma days_before_month_mono (y m1 m2 : Z) :
  1 <= m1 -> m1 < m2 -> m2 <= 12 ->
  days_before_month y m1 + days_in_month y m1 <= days_before_month y m2.
Proof.
  intros H1 H12 H2.
  assert (Ha : 1 <= m1 <= 12) by lia. assert (Hb : 1 <= m2 <= 12) by lia.
  unfold days_before_month, days_in_month.
  destruct (is_leap y);
    each_month m1 Ha; each_month m2 Hb; try lia; vm_compute; discriminate.
Qed.

Lemma days_before_month_end (y m : Z) :
  1 <= m <= 12 ->
  days_before_month y m + days_in_month y m
  <= 365 + (if is_leap y then 1 else 0).
Proof.
  intros H. unfold days_before_month, days_in_month.
  destruct (is_leap y); each_month m H; vm_compute; discriminate.
Qed.

Lemma days_before_month_nonneg (y m : Z) :
  1 <= m <= 12 -> 0 <= days_before_month y m.
Proof.
  intros H. unfold days_before_month.
  destruct (is_leap y); each_month m H; vm_compute; discriminate.
Qed.

(** Within one year the ordinal grows with the date. *)
Lemma ge_same_year (a b : date) :
  valid a -> valid b -> year a = year b ->
  (ge a b = true <-> toordinal b <= toordinal a).
Proof.
  intros Ha Hb Hy.
  apply valid_bounds in Ha as (_ & Hma & Hda).
  apply valid_bounds in Hb as (_ & Hmb & Hdb).
  unfold ge, toordinal. rewrite <- Hy in *. rewrite Z.eqb_refl.
  destruct (month a =? month b) eqn:Em.
  - apply Z.eqb_eq in Em. rewrite <- Em in *. rewrite Z.leb_le. lia.
  - apply Z.eqb_neq in Em. rewrite Z.ltb_lt.
    destruct (Z.lt_ge_cases (month b) (month a)) as [Hlt|Hge].
    + pose proof (days_before_month_mono (year a) (month b) (month a)).
      split; [lia | tauto].
    + pose proof (days_before_month_mono (year a) (month a) (month b)).
      split; lia.
Qed.

Lemma toordinal_in_year (t : date) :
  valid t ->
  days_before_year (year t) < toordinal t
  <= days_before_year (year t) + 365 + (if is_leap (year t) then 1 else 0).
Proof.
  intros H. apply valid_bounds in H as (_ & Hm & Hd).
  pose proof (days_before_month_end (year t) (month t) Hm).
  pose proof (days_before_month_nonneg (year t) (month t) Hm).
  unfold toordinal. lia.
Qed.

Lemma toordinal_next_year (y m d : Z) :
  1 <= m <= 12 ->
  toordinal (datetime.mk (y + 1) m d) - toordinal (datetime.mk y m d) <= 366.
Proof.
  intros Hm. unfold toordinal. cbn [year month day].
  rewrite days_before_year_succ. unfold days_before_month.
  destruct (2 <? m); cbn [andb]; destruct (is_leap y), (is_leap (y + 1)); lia.
Qed.

Lemma ge_antisym (a b : date) : ge a b = true -> ge b a = true -> a = b.
Proof.
  destruct a as [ya ma da], b as [yb mb db]. unfold ge. cbn [year month day].
  rewrite (Z.eqb_sym yb ya), (Z.eqb_sym mb ma).
  destruct (ya =? yb) eqn:Ey; [destruct (ma =? mb) eqn:Em|];
    intros H1 H2; unbool; try lia.
  f_equal; lia.
Qed.

Lemma valid_mk (y m d : Z) (t : date) :
  date_new y m d = Ok t -> valid t /\ year t = y /\ month t = m /\ day t = d.
Proof.
  intros H. pose proof H as H'. apply date_new_ok in H' as (-> & _).
  unfold valid. cbn. auto.
Qed.

(** What [next_occurrence] returns, when it returns: a date with the
    day and the month asked for, in the year of [today] or the next,
    not before [today] and at most 365 days after it; it is [today]
    itself exactly when no day is left.  So the test [0 <= days_left]
    of [daily_check] never fails. *)
Theorem next_occurrence_days_left (d m : Z) (today occ : date) :
  valid today -> bot.next_occurrence d m today = Ok occ ->
  valid occ /\ day occ = d /\ month occ = m
  /\ (year occ = year today \/ year occ = year today + 1)
  /\ ge occ today = true
  /\ 0 <= sub_days occ today <= 365
  /\ (sub_days occ today = 0 <-> occ = today).
Proof.
  intros Hv. unfold bot.next_occurrence.
  destruct (date_new (year today) m d) as [t|e] eqn:Et; [|discriminate].
  cbn [bind]. apply valid_mk in Et as (Hvt & Hyt & Hmt & Hdt).
  pose proof (toordinal_in_year today Hv) as Hto.
  destruct (ge t today) eqn:Eg.
  - intros [= <-].
    pose proof (toordinal_in_year t Hvt) as Htt. rewrite Hyt in Htt.
    pose proof (proj1 (ge_same_year t today Hvt Hv Hyt) Eg) as Hord.
    repeat match goal with |- _ /\ _ => split end;
      auto; unfold sub_days; try (destruct (is_leap (year today)); lia).
    split.
    + intros H0. apply ge_antisym; [exact Eg|].
      apply (ge_same_year today t Hv Hvt); [congruence | lia].
    + intros ->. lia.
  - intros Ho. apply valid_mk in Ho as (Hvo & Hyo & Hmo & Hdo).
    pose proof (toordinal_in_year occ Hvo) as Hoo. rewrite Hyo in Hoo.
    rewrite days_before_year_succ in Hoo.
    assert (Hlt : toordinal t < toordinal today).
    { destruct (Z.lt_ge_cases (toordinal t) (toordinal today)); [assumption|].
      assert (ge t today = true) by (apply ge_same_year; auto).
      congruence. }
    assert (Hn : toordinal occ - toordinal t <= 366).
    { destruct occ as [yo mo dd], t as [yt mt dt]. cbn in *. subst.
      apply toordinal_next_year. apply valid_bounds in Hvo. cbn in Hvo. lia. }
    assert (Hge : ge occ today = true).
    { unfold ge. rewrite Hyo.
      replace (year today + 1 =? year today) with false
        by (symmetry; apply Z.eqb_neq; lia).
      apply Z.ltb_lt. lia. }
    repeat match goal with |- _ /\ _ => split end;
      auto; unfold sub_days; try (destruct (is_leap (year today)); lia).
    split.
    + intros H0. destruct (is_leap (year today)); lia.
    + intros ->. lia.
Qed.

Lemma next_occurrence_days_left_witness :
  sub_days (datetime.mk 2025 2 14) (datetime.mk 2024 2 15) <= 365.
Proof.
  apply (next_occurrence_days_left 14 2 (datetime.mk 2024 2 15)
                                   (datetime.mk 2025 2 14));
    reflexivity.
Defined.

(** A day and a month that exist in the leap year 2000 exist in every
    year, 29 February apart. *)
Lemma date_new_any_year (y m d : Z) (t : date) :
  date_new 2000 m d = Ok t -> ~ (m = 2 /\ d = 29) -> 1 <= y <= 9999 ->
  date_new y m d = Ok (datetime.mk y m d).
Proof.
  intros H Hf Hy. apply date_new_ok in H as (_ & _ & Hm & Hd).
  apply date_new_ok. repeat split; try lia.
  destruct (Z.eq_dec m 2) as [->|Hm2].
  - rewrite days_in_month_feb in *. change (is_leap 2000) with true in Hd.
    destruct (is_leap y); lia.
  - unfold days_in_month in *.
    replace (m =? 2) with false in * by (symmetry; apply Z.eqb_neq; lia).
    cbv beta iota delta [andb] in *. lia.
Qed.

(** [next_occurrence] returns a date for every day and month other
    than 29 February that exist in the reference year 2000 of
    [parse_date], on every [today] before the last year. *)
Theorem next_occurrence_total (d m : Z) (today t : date) :
  valid today -> year today < 9999 ->
  date_new 2000 m d = Ok t -> ~ (m = 2 /\ d = 29) ->
  exists occ, bot.next_occurrence d m today = Ok occ.
Proof.
  intros Hv Hy Ht Hf. pose proof (valid_bounds today Hv) as (Hyt & _).
  unfold bot.next_occurrence.
  rewrite (date_new_any_year (year today) m d t Ht Hf) by lia. cbn [bind].
  destruct (ge _ today); [eauto|].
  rewrite (date_new_any_year (year today + 1) m d t Ht Hf) by lia. eauto.
Qed.

Lemma next_occurrence_total_witness :
  exists occ, bot.next_occurrence 31 12 (datetime.mk 2023 6 1) = Ok occ.
Proof.
  apply (next_occurrence_total 31 12 (datetime.mk 2023 6 1)
                               (datetime.mk 2000 12 31)).
  - reflexivity.
  - cbn. lia.
  - reflexivity.
  - intros [H _]. discriminate H.
Defined.

End Ordinals.

(** ** [parse_date] *)

Section Parsing.

Import datetime.

(** A day and a month that exist in some year exist in the leap year
    2000. *)
Lemma date_new_leap_reference (y m d : Z) (t : date) :
  date_new y m d = Ok t -> date_new 2000 m d = Ok (datetime.mk 2000 m d).
Proof.
  intros H. apply date_new_ok in H as (_ & _ & Hm & Hd).
  apply date_new_ok. repeat split; try lia.
  destruct (Z.eq_dec m 2) as [->|Hm2].
  - rewrite days_in_month_feb in *. change (is_leap 2000) with true.
    destruct (is_leap y); lia.
  - unfold days_in_month in *.
    replace (m =? 2) with false in * by (symmetry; apply Z.eqb_neq; lia).
    cbv beta iota delta [andb] in *. lia.
Qed.

Lemma strptime_Ymd_valid (s : string) (t : date) :
  strptime_Ymd s = Ok t -> valid t.
Proof.
  unfold strptime_Ymd.
  destruct (match_Y s) as [[y r]|]; [|discriminate].
  destruct (match_dash r) as [r1|]; [|discriminate].
  destruct (first_month (match_m r1)) as [[[m d] rest]|]; [|discriminate].
  destruct rest; [|discriminate].
  destruct (date_new y m d) as [t'|e] eqn:E; [|discriminate].
  intros [= <-]. apply valid_mk in E. tauto.
Qed.

Lemma parse_seps_accepted (seps : list ascii) (s : string) (d m : Z)
      (y : option Z) :
  bot.parse_seps seps s = Ok (d, m, y) -> accepted d m y.
Proof.
  induction seps as [|sep seps IH]; cbn [bot.parse_seps]; [discriminate|].
  destruct (py.split sep s) as [|dd [|mm [|yyyy [|x l]]]]; auto.
  - destruct (py.int dd) as [d'|]; [|discriminate].
    destruct (py.int mm) as [m'|]; [|discriminate]. cbn [bind].
    destruct (date_new 2000 m' d') as [t|] eqn:E; [|discriminate].
    cbn [bind]. intros [= <- <- <-].
    split; [|exact I]. apply date_new_ok in E as (-> & E).
    apply date_new_ok. auto.
  - destruct (py.int dd) as [d'|]; [|discriminate].
    destruct (py.int mm) as [m'|]; [|discriminate].
    destruct (py.int yyyy) as [y'|]; [|discriminate]. cbn [bind].
    destruct (date_new y' m' d') as [t|] eqn:E; [|discriminate].
    cbn [bind]. intros [= <- <- <-].
    split; [eapply date_new_leap_reference; eauto|].
    pose proof E as E'. apply date_new_ok in E' as (-> & _). exact E.
Qed.

Lemma parse_date_ok_accepted (raw : string) (d m : Z) (y : option Z) :
  bot.parse_date raw = Ok (d, m, y) -> accepted d m y.
Proof.
  unfold bot.parse_date.
  destruct (strptime_Ymd (py.strip raw)) as [t|[]] eqn:E.
  - intros [= <- <- <-]. apply strptime_Ymd_valid in E.
    unfold valid in E. split.
    + eapply date_new_leap_reference; eauto.
    + destruct t; exact E.
  - apply parse_seps_accepted.
  - discriminate.
Qed.

(** Whatever [parse_date] returns is a day and a month of the leap
    year 2000, and a date of the year returned when there is one: so
    29 February can be stored, and nothing that is not a calendar day
    can. *)
Theorem parse_date_accepted (raw : string) (d m : Z) (y : option Z) :
  bot.parse_date raw = Ok (d, m, y) -> accepted d m y.
Proof. apply parse_date_ok_accepted. Qed.

Lemma parse_date_accepted_witness : accepted 29 2 (Some 2024).
Proof. apply (parse_date_accepted "29/02/2024"). reflexivity. Defined.

(** *** White space *)

Lemma lstrip_blank_app (ws s : string) :
  py.blank ws = true -> py.lstrip (ws +++ s) = py.lstrip s.
Proof.
  induction ws as [|c ws IH]; cbn; [reflexivity|].
  intros H. apply andb_true_iff in H as [Hc Hw]. rewrite Hc. auto.
Qed.

Lemma rstrip_blank (ws : string) : py.blank ws = true -> py.rstrip ws = "".
Proof.
  induction ws as [|c ws IH]; cbn; [reflexivity|].
  intros H. apply andb_true_iff in H as [Hc Hw]. rewrite (IH Hw), Hc.
  reflexivity.
Qed.

Lemma rstrip_app_blank (s ws : string) :
  py.blank ws = true -> py.rstrip (s +++ ws) = py.rstrip s.
Proof.
  intros H. induction s as [|c s IH]; cbn.
  - apply rstrip_blank, H.
  - rewrite IH. reflexivity.
Qed.

Lemma lstrip_app_blank (s ws : string) :
  py.blank ws = true ->
  py.lstrip (s +++ ws) = py.lstrip s +++ ws \/ py.lstrip s = "".
Proof.
  intros H. induction s as [|c s IH]; cbn; [auto|].
  destruct (py.isspace c); [exact IH | auto].
Qed.

Lemma strip_blank_around (ws1 s ws2 : string) :
  py.blank ws1 = true -> py.blank ws2 = true ->
  py.strip (ws1 +++ s +++ ws2) = py.strip s.
Proof.
  intros H1 H2. unfold py.strip. rewrite lstrip_blank_app by exact H1.
  destruct (lstrip_app_blank s ws2 H2) as [E|E].
  - rewrite E. apply rstrip_app_blank, H2.
  - rewrite E. cbn.
    assert (Hb : py.blank (s +++ ws2) = true).
    { clear H1. induction s as [|c s IH]; cbn in *; [exact H2|].
      destruct (py.isspace c); [auto | discriminate]. }
    clear E. revert Hb. generalize (s +++ ws2). intros x Hx.
    assert (py.lstrip x = "").
    { induction x as [|c x IH]; cbn in *; [reflexivity|].
      apply andb_true_iff in Hx as [Hc Hx]. rewrite Hc. auto. }
    rewrite H. reflexivity.
Qed.

Lemma lstrip_clean (s : string) :
  match py.lstrip s with
  | EmptyString => True
  | String c _ => py.isspace c = false
  end.
Proof.
  induction s as [|c s IH]; cbn; [exact I|].
  destruct (py.isspace c) eqn:E; [exact IH | exact E].
Qed.

Lemma rstrip_idempotent (s : string) : py.rstrip (py.rstrip s) = py.rstrip s.
Proof.
  induction s as [|c s IH]; [reflexivity|]. cbn [py.rstrip].
  destruct (py.rstrip s) as [|c' r'] eqn:E.
  - destruct (py.isspace c) eqn:Ec; [reflexivity|]. cbn. rewrite Ec.
    reflexivity.
  - cbn [py.rstrip]. cbn [py.rstrip] in IH.
    destruct (py.rstrip r') as [|c2 r2] eqn:E2.
    + destruct (py.isspace c') eqn:Ec'; [discriminate|]. rewrite IH.
      reflexivity.
    + rewrite IH. reflexivity.
Qed.

(** Stripping twice is stripping once. *)
Lemma strip_idempotent (s : string) : py.strip (py.strip s) = py.strip s.
Proof.
  unfold py.strip. pose proof (lstrip_clean s) as Hc.
  destruct (py.lstrip s) as [|c r] eqn:E; [reflexivity|].
  assert (Hr : py.rstrip (String c r) = String c (py.rstrip r)).
  { cbn. rewrite Hc. destruct (py.rstrip r); reflexivity. }
  rewrite Hr. cbn [py.lstrip]. rewrite Hc. rewrite <- Hr.
  apply rstrip_idempotent.
Qed.

(** White space before and after the text of a date is ignored. *)
Theorem parse_date_ignores_blanks (ws1 raw ws2 : string) :
  py.blank ws1 = true -> py.blank ws2 = true ->
  bot.parse_date (ws1 +++ raw +++ ws2) = bot.parse_date raw.
Proof.
  intros H1 H2. unfold bot.parse_date.
  rewrite strip_blank_around by assumption. reflexivity.
Qed.

Lemma parse_date_ignores_blanks_witness :
  bot.parse_date ("  " +++ "14.02" +++ " ") = bot.parse_date "14.02".
Proof. apply parse_date_ignores_blanks; reflexivity. Defined.

End Parsing.

(** ** What the bot shows parses back *)

Section RoundTrip.

Import datetime.

Lemma digit_not_space (c : ascii) : py.isdigit c = true -> py.isspace c = false.
Proof.
  destruct c as [[] [] [] [] [] [] [] []]; try discriminate; reflexivity.
Qed.

Lemma digit_not_sep (c sep : ascii) :
  py.isdigit c = true -> In sep bot.SEPS -> Ascii.eqb c sep = false.
Proof.
  intros H Hs. cbn in Hs. destruct Hs as [<-|[<-|[<-|[]]]];
    destruct c as [[] [] [] [] [] [] [] []]; try discriminate; reflexivity.
Qed.

Lemma rstrip_cons_clean (c : ascii) (t : string) :
  py.isspace c = false -> py.rstrip (String c t) = String c (py.rstrip t).
Proof. intros H. cbn. rewrite H. destruct (py.rstrip t); reflexivity. Qed.

Lemma rstrip_digits (s : string) : all_digits s = true -> py.rstrip s = s.
Proof.
  induction s as [|c s IH]; [reflexivity|]. cbn [all_digits].
  intros H. apply andb_true_iff in H as [Hc Hs].
  rewrite rstrip_cons_clean by (apply digit_not_space, Hc).
  rewrite IH by exact Hs. reflexivity.
Qed.

Lemma split_cons_other (sep c : ascii) (r : string) :
  Ascii.eqb c sep = false ->
  py.split sep (String c r)
  = match py.split sep r with
    | h :: t => String c h :: t
    | [] => [String c EmptyString]
    end.
Proof. intros H. cbn. rewrite H. reflexivity. Qed.

Lemma split_cons_sep (sep : ascii) (r : string) :
  py.split sep (String sep r) = EmptyString :: py.split sep r.
Proof. cbn. rewrite Ascii.eqb_refl. reflexivity. Qed.

Lemma split_digits (sep : ascii) (s : string) :
  In sep bot.SEPS -> all_digits s = true -> py.split sep s = [s].
Proof.
  intros Hsep. induction s as [|c s IH]; [reflexivity|]. cbn [all_digits].
  intros H. apply andb_true_iff in H as [Hc Hs].
  rewrite split_cons_other by (apply digit_not_sep; assumption).
  rewrite IH by exact Hs. reflexivity.
Qed.

Lemma dot_in_SEPS : In "."%char bot.SEPS.
Proof. left. reflexivity. Qed.

Lemma strip_dotted (a : ascii) (r : string) :
  py.isdigit a = true -> py.rstrip (String a r) = String a r ->
  py.strip (String a r) = String a r.
Proof.
  intros Ha Hr. unfold py.strip. cbn [py.lstrip].
  rewrite (digit_not_space a Ha). exact Hr.
Qed.

Lemma strptime_Ymd_sep (a b sep : ascii) (r : string) :
  In sep bot.SEPS ->
  datetime.strptime_Ymd (String a (String b (String sep r)))
  = Raise ValueError.
Proof.
  intros Hs. unfold strptime_Ymd. destruct r as [|c r]; [reflexivity|].
  cbn [match_Y].
  replace (py.isdigit sep) with false
    by (cbn in Hs; destruct Hs as [<-|[<-|[<-|[]]]]; reflexivity).
  rewrite andb_false_r. reflexivity.
Qed.

Lemma sep_not_space (sep : ascii) : In sep bot.SEPS -> py.isspace sep = false.
Proof. cbn. intros [<-|[<-|[<-|[]]]]; reflexivity. Qed.

(** One step of reading [py.split] along a text whose characters are
    known to be digits or separators. *)
Ltac split_step :=
  first [ rewrite split_cons_sep
        | rewrite split_cons_other
            by (first [ reflexivity
                      | apply digit_not_sep; [assumption | cbn; tauto] ])
        | rewrite split_digits by (first [cbn; tauto | assumption]) ].

(** The text [DD<sep>MM], two digits each, is read as a day and a
    month and checked in the year 2000. *)
Lemma parse_date_two_parts (sep a b c e : ascii) :
  In sep bot.SEPS ->
  py.isdigit a = true -> py.isdigit b = true ->
  py.isdigit c = true -> py.isdigit e = true ->
  bot.parse_date (String a (String b (String sep (String c (String e "")))))
  = (day <- py.int (String a (String b "")) ;;
     month <- py.int (String c (String e "")) ;;
     _ <- date_new 2000 month day ;;
     Ok (day, month, None)).
Proof.
  intros Hs Ha Hb Hc He. unfold bot.parse_date.
  assert (Hce : all_digits (String c (String e "")) = true)
    by (cbn; rewrite Hc, He; reflexivity).
  rewrite strip_dotted; [| exact Ha |].
  - rewrite strptime_Ymd_sep by exact Hs.
    cbn in Hs. destruct Hs as [<-|[<-|[<-|[]]]];
      cbn [bot.parse_seps bot.SEPS]; repeat split_step; reflexivity.
  - rewrite !rstrip_cons_clean
      by (first [ apply digit_not_space; assumption
                | apply sep_not_space; assumption ]).
    reflexivity.
Qed.

(** The text [DD<sep>MM<sep>Y...] is read as a day, a month and a year
    and checked in that year. *)
Lemma parse_date_three_parts (sep a b c e : ascii) (ys : string) :
  In sep bot.SEPS ->
  py.isdigit a = true -> py.isdigit b = true ->
  py.isdigit c = true -> py.isdigit e = true ->
  all_digits ys = true -> ys <> "" ->
  bot.parse_date
    (String a (String b (String sep (String c (String e (String sep ys))))))
  = (day <- py.int (String a (String b "")) ;;
     month <- py.int (String c (String e "")) ;;
     year <- py.int ys ;;
     _ <- date_new year month day ;;
     Ok (day, month, Some year)).
Proof.
  intros Hs Ha Hb Hc He Hy Hne. unfold bot.parse_date.
  rewrite strip_dotted; [| exact Ha |].
  - rewrite strptime_Ymd_sep by exact Hs.
    cbn in Hs. destruct Hs as [<-|[<-|[<-|[]]]];
      cbn [bot.parse_seps bot.SEPS]; repeat split_step; reflexivity.
  - rewrite !rstrip_cons_clean
      by (first [ apply digit_not_space; assumption
                | apply sep_not_space; assumption ]).
    rewrite rstrip_digits by exact Hy. reflexivity.
Qed.

(** The three separators are read alike: a date written with two
    digits for the day and two for the month, with or without a year
    in digits, parses the same with [.], [-] and [/]. *)
Theorem parse_date_separators (sep a b c e : ascii) (ys : string) :
  In sep bot.SEPS ->
  py.isdigit a = true -> py.isdigit b = true ->
  py.isdigit c = true -> py.isdigit e = true ->
  all_digits ys = true -> ys <> "" ->
  bot.parse_date (String a (String b (String sep (String c (String e "")))))
  = bot.parse_date (String a (String b (String "." (String c (String e "")))))
  /\ bot.parse_date
       (String a (String b (String sep (String c (String e (String sep ys))))))
     = bot.parse_date
         (String a (String b (String "." (String c (String e (String "." ys)))))).
Proof.
  intros Hs Ha Hb Hc He Hy Hne. split.
  - rewrite !parse_date_two_parts by (first [assumption | apply dot_in_SEPS]).
    reflexivity.
  - rewrite !parse_date_three_parts
      by (first [assumption | apply dot_in_SEPS]).
    reflexivity.
Qed.

Lemma parse_date_separators_witness :
  bot.parse_date "14/02" = bot.parse_date "14.02"
  /\ bot.parse_date "14/02/2004" = bot.parse_date "14.02.2004".
Proof.
  apply (parse_date_separators "/" "1" "4" "0" "2" "2004");
    try reflexivity; try discriminate.
  right. right. left. reflexivity.
Defined.

Lemma two_digits_all_checked :
  forallb two_digits_checked (List.seq 0 (Z.to_nat 100)) = true.
Proof. vm_compute. reflexivity. Qed.

Lemma str_int_all_checked :
  forallb str_int_checked (List.seq 0 (Z.to_nat 10000)) = true.
Proof. vm_compute. reflexivity. Qed.

Lemma int_eqb_eq (a : result Z) (b : Z) : int_eqb a b = true -> a = Ok b.
Proof.
  destruct a as [v|e]; cbn; [|discriminate].
  intros H. apply Z.eqb_eq in H. congruence.
Qed.

Lemma format_02d_two_digits (d : Z) :
  0 <= d <= 99 ->
  exists a b, py.format_02d d = String a (String b "")
              /\ py.isdigit a = true /\ py.isdigit b = true
              /\ py.int (String a (String b "")) = Ok d.
Proof.
  intros Hd.
  assert (Hc : two_digits_checked (Z.to_nat d) = true).
  { pose proof two_digits_all_checked as H.
    rewrite forallb_forall in H. apply H. apply in_seq. lia. }
  unfold two_digits_checked in Hc. rewrite Z2Nat.id in Hc by lia.
  destruct (py.format_02d d) as [|a [|b [|x r]]]; try discriminate.
  apply andb_true_iff in Hc as [Hc Hi].
  apply andb_true_iff in Hc as [Ha Hb].
  exists a, b. repeat split; auto. apply int_eqb_eq, Hi.
Qed.

Lemma str_digits (y : Z) :
  0 <= y <= 9999 ->
  all_digits (py.str y) = true /\ py.str y <> ""
  /\ py.int (py.str y) = Ok y.
Proof.
  intros Hy.
  assert (Hc : str_int_checked (Z.to_nat y) = true).
  { pose proof str_int_all_checked as H.
    rewrite forallb_forall in H. apply H. apply in_seq. lia. }
  unfold str_int_checked in Hc. rewrite Z2Nat.id in Hc by lia.
  destruct (py.str y) as [|c r]; [discriminate|].
  apply andb_true_iff in Hc as [Hd Hi].
  repeat split; [exact Hd | discriminate | apply int_eqb_eq, Hi].
Qed.

(** The date [add_cmd] shows in its confirmation, given back to
    [parse_date], is read as the day, the month and the year that were
    stored. *)
Theorem parse_date_shown (d m : Z) (y : option Z) :
  accepted d m y -> bot.parse_date (bot.shown d m y) = Ok (d, m, y).
Proof.
  intros [H2000 Hy].
  pose proof H2000 as Hb. apply date_new_ok in Hb as (_ & _ & Hm & Hd).
  pose proof (days_in_month_bounds 2000 m Hm) as Hdim.
  destruct (format_02d_two_digits d) as (a & b & Ed & Ha & Hb & Hid); [lia|].
  destruct (format_02d_two_digits m) as (c & e & Em & Hc & He & Him); [lia|].
  unfold bot.shown. rewrite Ed, Em. destruct y as [yy|].
  - pose proof Hy as Hyb. apply date_new_ok in Hyb as (_ & Hyy & _).
    replace (yy =? 0) with false by (symmetry; apply Z.eqb_neq; lia).
    destruct (str_digits yy) as (Hds & Hne & Hiy); [lia|].
    cbn [String.append].
    rewrite parse_date_three_parts by (first [assumption | apply dot_in_SEPS]).
    rewrite Hid, Him, Hiy. cbn [bind]. rewrite Hy. reflexivity.
  - cbn [String.append].
    rewrite parse_date_two_parts by (first [assumption | apply dot_in_SEPS]).
    rewrite Hid, Him. cbn [bind]. rewrite H2000. reflexivity.
Qed.

Lemma parse_date_shown_witness :
  bot.parse_date (bot.shown 29 2 (Some 2024)) = Ok (29, 2, Some 2024).
Proof. apply parse_date_shown. split; reflexivity. Defined.

End RoundTrip.

(** ** More on the table *)

Section StoreMore.

Import db.

Lemma filter_user_map (f : row -> row) (u : Z) (rs : list row) :
  (forall r, user_id r = u -> f r = r) ->
  (forall r, user_id (f r) = user_id r) ->
  filter (fun r => user_id r =? u) (map f rs)
  = filter (fun r => user_id r =? u) rs.
Proof.
  intros H1 H2. induction rs as [|r rs IH]; cbn; [reflexivity|].
  rewrite H2. destruct (user_id r =? u) eqn:E; [|exact IH].
  apply Z.eqb_eq in E. rewrite (H1 r E). f_equal. exact IH.
Qed.

(** [upsert_birthday] and [delete_birthday] for one owner leave the
    rows of every other owner as they are, and so what
    [list_birthdays] and the sweep read for them. *)
Theorem other_owner_untouched (s : t) (u u' : Z) (n : string) (d m : Z)
        (y : option Z) :
  u' <> u ->
  get_birthdays_for_user (upsert_birthday s u n d m y) u'
  = get_birthdays_for_user s u'
  /\ get_birthdays_for_user (fst (delete_birthday s u n)) u'
     = get_birthdays_for_user s u'
  /\ list_birthdays (upsert_birthday s u n d m y) u' = list_birthdays s u'
  /\ list_birthdays (fst (delete_birthday s u n)) u' = list_birthdays s u'.
Proof.
  intros Hne.
  assert (H1 : get_birthdays_for_user (upsert_birthday s u n d m y) u'
               = get_birthdays_for_user s u').
  { unfold get_birthdays_for_user, upsert_birthday.
    destruct (existsb (same_key u n) (rows s)); cbn [rows].
    - apply filter_user_map.
      + intros r Hr. destruct (same_key u n r) eqn:E; [|reflexivity].
        apply same_key_iff in E as [E _]. congruence.
      + intros r. destruct (same_key u n r); reflexivity.
    - rewrite filter_app. cbn.
      replace (u =? u') with false by (symmetry; apply Z.eqb_neq; auto).
      apply app_nil_r. }
  assert (H2 : get_birthdays_for_user (fst (delete_birthday s u n)) u'
               = get_birthdays_for_user s u').
  { unfold get_birthdays_for_user. cbn [delete_birthday fst rows].
    induction (rows s) as [|r rs IH]; cbn; [reflexivity|].
    destruct (same_key u n r) eqn:E; cbn.
    - apply same_key_iff in E as [E _].
      replace (user_id r =? u') with false
        by (symmetry; apply Z.eqb_neq; congruence).
      exact IH.
    - destruct (user_id r =? u'); [f_equal|]; exact IH. }
  unfold list_birthdays. unfold get_birthdays_for_user in H1, H2.
  rewrite H1, H2. auto.
Qed.

Lemma other_owner_untouched_witness :
  let s := db.mk [mk_row 1 7 "Ann" 14 2 None None;
                  mk_row 2 8 "Eve" 3 5 (Some 1990) (Some 2024);
                  mk_row 3 8 "Ann" 1 1 None None] 3 in
  get_birthdays_for_user (upsert_birthday s 7 "ANN" 15 3 None) 8
  = [mk_row 2 8 "Eve" 3 5 (Some 1990) (Some 2024);
     mk_row 3 8 "Ann" 1 1 None None]
  /\ get_birthdays_for_user (fst (delete_birthday s 7 "ANN")) 8
     = [mk_row 2 8 "Eve" 3 5 (Some 1990) (Some 2024);
        mk_row 3 8 "Ann" 1 1 None None]
  /\ list_birthdays (upsert_birthday s 7 "ANN" 15 3 None) 8
     = [mk_summary "Ann" 1 1 None; mk_summary "Eve" 3 5 (Some 1990)].
Proof.
  intros s.
  destruct (other_owner_untouched s 7 8 "ANN" 15 3 None)
    as (H1 & H2 & H3 & _); [discriminate|].
  rewrite H1, H2, H3. repeat split.
Defined.

Lemma existsb_same_key_after_upsert (s : t) (u : Z) (n : string) (d m : Z)
      (y : option Z) :
  wf s -> existsb (same_key u n) (rows (upsert_birthday s u n d m y)) = true.
Proof.
  intros Hw. destruct (upsert_birthday_row s u n d m y Hw) as (r & Hr & _).
  apply existsb_exists. exists r. apply filter_In. rewrite Hr.
  left. reflexivity.
Qed.

(** An upsert repeated with the same values changes no row. *)
Theorem upsert_birthday_idempotent (s : t) (u : Z) (n : string) (d m : Z)
        (y : option Z) :
  wf s ->
  rows (upsert_birthday (upsert_birthday s u n d m y) u n d m y)
  = rows (upsert_birthday s u n d m y).
Proof.
  intros Hw. set (s1 := upsert_birthday s u n d m y).
  assert (Hw1 : wf s1) by (apply wf_upsert_birthday, Hw).
  destruct (upsert_birthday_row s u n d m y Hw)
    as (r & Hr & Hd & Hm & Hy & Hl). fold s1 in Hr.
  assert (Hin : In r (rows s1) /\ same_key u n r = true).
  { apply filter_In. rewrite Hr. left. reflexivity. }
  destruct Hin as [Hin Hk].
  unfold upsert_birthday at 1.
  replace (existsb (same_key u n) (rows s1)) with true
    by (symmetry; apply existsb_exists; eauto).
  cbn [rows]. rewrite <- (map_id (rows s1)) at 2.
  apply map_ext_in. intros x Hx.
  destruct (same_key u n x) eqn:E; [|reflexivity].
  assert (x = r).
  { destruct Hw1 as [Hu _]. symmetry.
    apply (unique_rows_same_key (rows s1)); auto.
    rewrite <- (same_key_of_row u n r x Hk). exact E. }
  subst x. destruct r; cbn in *. unfold do_update. cbn. congruence.
Qed.

Lemma upsert_birthday_idempotent_witness :
  rows (upsert_birthday (upsert_birthday init_db 7 "Ann" 14 2 None)
                        7 "Ann" 14 2 None)
  = rows (upsert_birthday init_db 7 "Ann" 14 2 None).
Proof. apply upsert_birthday_idempotent, wf_init_db. Defined.

(** A name that was not there, once added and then deleted, leaves the
    rows as they were, and the deletion reports one row. *)
Theorem delete_after_upsert (s : t) (u : Z) (n : string) (d m : Z)
        (y : option Z) :
  existsb (same_key u n) (rows s) = false ->
  rows (fst (delete_birthday (upsert_birthday s u n d m y) u n)) = rows s
  /\ snd (delete_birthday (upsert_birthday s u n d m y) u n) = 1.
Proof.
  intros H. unfold upsert_birthday. rewrite H.
  cbn [delete_birthday fst snd rows]. split.
  - rewrite filter_app. cbn [filter]. rewrite same_key_new_row. cbn.
    rewrite app_nil_r. apply filter_all. intros x Hx.
    destruct (same_key u n x) eqn:E; [|reflexivity].
    assert (existsb (same_key u n) (rows s) = true)
      by (apply existsb_exists; eauto).
    congruence.
  - rewrite filter_app, (filter_none _ _ H). cbn [filter app].
    rewrite same_key_new_row. reflexivity.
Qed.

Lemma delete_after_upsert_witness :
  snd (delete_birthday (upsert_birthday init_db 7 "Ann" 14 2 None) 7 "Ann")
  = 1.
Proof. apply (delete_after_upsert init_db 7 "Ann" 14 2 None). reflexivity. Defined.

(** After [delete_birthday] no row of the owner answers to the name
    up to the case of the ASCII letters, so deleting again removes
    nothing and changes nothing, and [list_birthdays] shows no name
    that folds to the same; with "Maria" and "Bob" stored, deleting
    "MARIA" twice leaves "Bob" alone in the list. *)
Theorem delete_birthday_twice (s : t) (u : Z) (n : string) :
  let s1 := fst (delete_birthday s u n) in
  existsb (same_key u n) (rows s1) = false
  /\ delete_birthday s1 u n = (s1, 0)
  /\ (forall x, In x (list_birthdays s1 u) -> LOWER (s_name x) <> LOWER n)
  /\ (let t0 := db.mk [mk_row 1 7 "Maria" 14 2 None None;
                       mk_row 2 7 "Bob" 1 1 None None] 2 in
      delete_birthday t0 7 "MARIA"
      = (db.mk [mk_row 2 7 "Bob" 1 1 None None] 2, 1)
      /\ delete_birthday (fst (delete_birthday t0 7 "MARIA")) 7 "MARIA"
         = (db.mk [mk_row 2 7 "Bob" 1 1 None None] 2, 0)
      /\ list_birthdays (fst (delete_birthday t0 7 "MARIA")) 7
         = [mk_summary "Bob" 1 1 None]).
Proof.
  cbv zeta.
  assert (H : existsb (same_key u n) (rows (fst (delete_birthday s u n)))
              = false).
  { cbn [delete_birthday fst rows].
    destruct (existsb _ _) eqn:E; [|reflexivity].
    apply existsb_exists in E as (x & Hx & Hk).
    apply filter_In in Hx as [_ Hx]. rewrite Hk in Hx. discriminate. }
  split; [exact H|]. split; [|split].
  - remember (fst (delete_birthday s u n)) as s1 eqn:E. clear E.
    unfold delete_birthday. rewrite (filter_none _ _ H).
    cbn [List.length Z.of_nat]. f_equal.
    destruct s1 as [rs q]. cbn [rows seq] in *. f_equal.
    apply filter_all. intros x Hx.
    destruct (same_key u n x) eqn:Ek; [|reflexivity].
    assert (existsb (same_key u n) rs = true)
      by (apply existsb_exists; eauto).
    congruence.
  - intros x Hx Hl. unfold list_birthdays in Hx.
    apply in_map_iff in Hx as (r & <- & Hr).
    apply (Permutation_in _ (Permutation_sym (order_by_perm _))) in Hr.
    apply filter_In in Hr as [Hr Hu]. apply Z.eqb_eq in Hu.
    assert (existsb (same_key u n) (rows (fst (delete_birthday s u n))) = true).
    { apply existsb_exists. exists r. split; [exact Hr|].
      apply same_key_iff. split; [exact Hu | exact Hl]. }
    congruence.
  - repeat split.
Qed.

Lemma upsert_birthday_listed (s : t) (u : Z) (n : string) (d m : Z)
      (y : option Z) :
  wf s ->
  exists x, In x (list_birthdays (upsert_birthday s u n d m y) u)
            /\ LOWER (s_name x) = LOWER n
            /\ s_day x = d /\ s_month x = m /\ s_year x = y.
Proof.
  intros Hw. destruct (upsert_birthday_row s u n d m y Hw)
    as (r & Hr & Hd & Hm & Hy & _).
  assert (Hin : In r (rows (upsert_birthday s u n d m y))
                /\ same_key u n r = true).
  { apply filter_In. rewrite Hr. left. reflexivity. }
  destruct Hin as [Hin Hk]. apply same_key_iff in Hk as [Hu Hn].
  exists (summary_of r). split; [|cbn; auto].
  unfold list_birthdays. apply in_map.
  apply (Permutation_in _ (order_by_perm _)).
  apply filter_In. split; [exact Hin | apply Z.eqb_eq, Hu].
Qed.

(** After an upsert, [list_birthdays] of the owner shows the date just
    given under a name equal to the given one up to ASCII case. *)
Theorem list_birthdays_after_upsert (s : t) (u : Z) (n : string) (d m : Z)
        (y : option Z) :
  wf s ->
  exists x, In x (list_birthdays (upsert_birthday s u n d m y) u)
            /\ LOWER (s_name x) = LOWER n
            /\ s_day x = d /\ s_month x = m /\ s_year x = y.
Proof. apply upsert_birthday_listed. Qed.

Lemma list_birthdays_after_upsert_witness :
  exists x, In x (list_birthdays
                    (upsert_birthday init_db 7 "Ann" 14 2 (Some 2004)) 7)
            /\ LOWER (s_name x) = LOWER "Ann"
            /\ s_day x = 14 /\ s_month x = 2 /\ s_year x = Some 2004.
Proof. apply list_birthdays_after_upsert, wf_init_db. Defined.

Lemma seq_apply_op (s : t) (o : op) : seq s <= seq (apply_op s o).
Proof.
  destruct o; cbn; [|lia|lia].
  unfold upsert_birthday.
  destruct (existsb _ _); cbn [seq]; lia.
Qed.

Lemma seq_fold_apply_op (ops : list op) (s : t) :
  seq s <= seq (fold_left apply_op ops s).
Proof.
  revert s. induction ops as [|o ops IH]; intros s; cbn; [lia|].
  pose proof (seq_apply_op s o). pose proof (IH (apply_op s o)). lia.
Qed.

Lemma wf_fold_apply_op (ops : list op) (s : t) :
  wf s -> wf (fold_left apply_op ops s).
Proof.
  revert s. induction ops as [|o ops IH]; intros s Hs; [exact Hs|].
  cbn [fold_left]. apply IH. destruct o; cbn [apply_op].
  - apply wf_upsert_birthday, Hs.
  - apply wf_delete_birthday, Hs.
  - apply wf_set_last_notified_year, Hs.
Qed.

(** The constraints of the table hold after every history of
    statements on a fresh file: rowids are unique, no owner has two
    names equal up to ASCII case, and the counter of the key is not below
    any rowid. *)
Theorem history_wf (ops : list op) : wf (history ops).
Proof. apply wf_fold_apply_op, wf_init_db. Qed.

(** Rowids are not used again: whatever statements run in between,
    deletions included, a row inserted later gets an [id] above the
    [id] of every row the table ever held. *)
Theorem upsert_birthday_fresh_id (s : t) (ops : list op) (r : row) (u : Z)
        (n : string) (d m : Z) (y : option Z) :
  wf s -> In r (rows s) ->
  let s' := fold_left apply_op ops s in
  existsb (same_key u n) (rows s') = false ->
  exists r', rows (upsert_birthday s' u n d m y) = rows s' ++ [r']
             /\ user_id r' = u /\ name r' = n /\ id r < id r'.
Proof.
  intros [Hu Hs] Hr s' He.
  pose proof (seq_fold_apply_op ops s) as Hseq. fold s' in Hseq.
  unfold upsert_birthday. rewrite He. cbn [rows].
  eexists. split; [reflexivity|]. cbn.
  rewrite Forall_forall in Hs. specialize (Hs r Hr). repeat split; lia.
Qed.

Lemma upsert_birthday_fresh_id_witness :
  exists r', rows (upsert_birthday
                     (fold_left apply_op [Delete 7 "Ann"]
                                (upsert_birthday init_db 7 "Ann" 14 2 None))
                     7 "Bob" 1 1 None)
             = [] ++ [r']
             /\ user_id r' = 7 /\ name r' = "Bob" /\ 1 < id r'.
Proof.
  apply (upsert_birthday_fresh_id
           (upsert_birthday init_db 7 "Ann" 14 2 None) [Delete 7 "Ann"]
           (mk_row 1 7 "Ann" 14 2 None None) 7 "Bob" 1 1 None).
  - apply wf_upsert_birthday, wf_init_db.
  - left. reflexivity.
  - reflexivity.
Defined.

(** [get_all_users] lists the owners that have at least one row, each
    once. *)
Theorem get_all_users_owners (s : t) :
  NoDup (get_all_users s)
  /\ forall u, In u (get_all_users s) <->
               exists r, In r (rows s) /\ user_id r = u.
Proof. split; [apply NoDup_get_all_users | apply in_get_all_users]. Qed.

Lemma set_last_notified_year_frame (s : t) (i y : Z) :
  map frame (rows (set_last_notified_year s i y)) = map frame (rows s)
  /\ seq (set_last_notified_year s i y) = seq s
  /\ map last_notified_year (rows (set_last_notified_year s i y))
     = map (fun r => if id r =? i then Some y else last_notified_year r)
           (rows s).
Proof.
  unfold set_last_notified_year. cbn [rows seq]. rewrite !map_map.
  split; [|split; [reflexivity|]].
  - apply map_ext. intros r. destruct (id r =? i); reflexivity.
  - apply map_ext. intros r. destruct (id r =? i); reflexivity.
Qed.

End StoreMore.

(** ** More on the sweep *)

Section SweepMore.

Import db bot sweep.

Lemma judge_due_inv (T : datetime.date) (r : row) (occ : datetime.date)
      (dl : Z) :
  judge T r = Due occ dl ->
  next_occurrence (day r) (month r) T = Ok occ
  /\ dl = datetime.sub_days occ T
  /\ 0 <= dl <= DAYS_BEFORE
  /\ last_notified_year r <> Some (datetime.year occ).
Proof.
  unfold judge.
  destruct (next_occurrence (day r) (month r) T) as [o|e]; [|discriminate].
  cbv zeta.
  destruct ((0 <=? datetime.sub_days o T)
            && (datetime.sub_days o T <=? DAYS_BEFORE)) eqn:E;
    cbn [negb]; [|discriminate].
  destruct (py.opt_eqb (last_notified_year r) (Some (datetime.year o))) eqn:El;
    [discriminate|].
  intros [= <- <-]. unbool. repeat split; try lia.
  intros Hl. rewrite Hl in El. cbn in El. rewrite Z.eqb_refl in El.
  discriminate.
Qed.

(** Every call the sweep makes is for a row of the table: it goes to
    the chat of the row's owner, the row's next occurrence is at most
    [DAYS_BEFORE] days away, the row is not marked for the year of that
    occurrence, and the text is the reminder for the row's name, the
    occurrence and the days left. *)
Theorem daily_check_calls_sound (D : transport) (T : datetime.date) (s : t)
        (e : event) :
  wf s -> In e (sent (snd (daily_check D T s))) ->
  exists r occ,
    In r (rows s) /\ ev_id e = id r /\ ev_chat e = user_id r
    /\ next_occurrence (day r) (month r) T = Ok occ
    /\ 0 <= datetime.sub_days occ T <= DAYS_BEFORE
    /\ last_notified_year r <> Some (datetime.year occ)
    /\ ev_text e = reminder_text (name r) occ (datetime.sub_days occ T).
Proof.
  intros Hw He. rewrite daily_check_plan in He by exact Hw.
  cbn [snd sent] in He.
  apply deliveries_due in He as (d & Hd & Hid & Hc & Ht).
  apply dues_rows in Hd as (Hr & Hu & Hj).
  apply judge_due_inv in Hj as (Ho & Hdl & Hb & Hl).
  exists (due_row d), (due_occ d).
  repeat match goal with |- _ /\ _ => split end; auto; try congruence; try lia.
  rewrite Ht. unfold due_text. congruence.
Qed.

Lemma daily_check_calls_sound_witness :
  let s := db.mk [mk_row 1 7 "Maria" 14 2 None None] 1 in
  let T := datetime.mk 2024 2 12 in
  exists r occ,
    In r (rows s) /\ 1 = id r /\ 7 = user_id r
    /\ next_occurrence (day r) (month r) T = Ok occ
    /\ 0 <= datetime.sub_days occ T <= DAYS_BEFORE
    /\ last_notified_year r <> Some (datetime.year occ)
    /\ reminder_text "Maria" (datetime.mk 2024 2 14) 2
       = reminder_text (name r) occ (datetime.sub_days occ T).
Proof.
  intros s T.
  apply (daily_check_calls_sound
           (fun _ _ _ => true) T s
           (mk_event 1 7 (reminder_text "Maria" (datetime.mk 2024 2 14) 2)
                     true)).
  - wf_rows.
  - left. reflexivity.
Defined.

Lemma notified_notified (r : row) (y y' : Z) :
  notified (notified r y) y' = notified r y'.
Proof. reflexivity. Qed.

Lemma frame_notified (r : row) (y : Z) : frame (notified r y) = frame r.
Proof. reflexivity. Qed.

(** The rows of a table after marking: each is a row from before,
    either as it was or carrying the year of one of the marks made for
    its [id]. *)
Lemma marked_rows (ms : list (Z * Z)) (s : t) (r' : row) :
  In r' (rows (marked ms s)) ->
  exists r, In r (rows s)
            /\ ((r' = r /\ ~ In (id r) (map fst ms))
                \/ exists y, In (id r, y) ms /\ r' = notified r y).
Proof.
  revert s. induction ms as [|[i y] ms IH]; intros s Hr'.
  - exists r'. cbn. auto.
  - rewrite marked_cons in Hr'. cbn [fst snd] in Hr'.
    apply IH in Hr' as (r1 & Hr1 & Hc).
    apply set_last_notified_year_rows in Hr1 as (r0 & Hr0 & Hc0).
    exists r0. split; [exact Hr0|].
    destruct Hc0 as [[Hne ->]|[He ->]].
    + destruct Hc as [[-> Hn]|(y' & Hy' & ->)].
      * left. split; [reflexivity|]. cbn. intros [E|E]; auto.
      * right. exists y'. split; [right; exact Hy' | reflexivity].
    + destruct Hc as [[-> Hn]|(y' & Hy' & ->)].
      * right. exists y. split; [left; congruence | reflexivity].
      * right. exists y'. cbn [id notified] in Hy'.
        split; [right; exact Hy' | reflexivity].
Qed.

Lemma marked_frame (ms : list (Z * Z)) (s : t) :
  map frame (rows (marked ms s)) = map frame (rows s)
  /\ seq (marked ms s) = seq s.
Proof.
  revert s. induction ms as [|m ms IH]; intros s; [auto|].
  rewrite marked_cons. destruct (IH (set_last_notified_year s (fst m) (snd m)))
    as [H1 H2].
  rewrite H1, H2. unfold set_last_notified_year. cbn [rows seq].
  split; [|reflexivity]. rewrite map_map. apply map_ext.
  intros r. destruct (id r =? fst m); reflexivity.
Qed.

(** The sweep writes nothing but [last_notified_year]: afterwards the
    table has the same rows with the same [id], owner, name and date,
    in the same order, and it still meets its constraints, whether the
    sweep ended well or not. *)
Theorem daily_check_frame (D : transport) (T : datetime.date) (s : t) :
  wf s ->
  let s' := store (snd (daily_check D T s)) in
  map frame (rows s') = map frame (rows s) /\ seq s' = seq s /\ wf s'.
Proof.
  intros Hw. cbv zeta. rewrite daily_check_plan by exact Hw.
  cbn [snd store].
  destruct (marked_frame (marks D 0 (dues T s)) s) as [H1 H2].
  split; [exact H1|]. split; [exact H2|]. apply wf_marked, Hw.
Qed.

Lemma daily_check_frame_witness :
  seq (store (snd (daily_check (fun _ _ _ => true) (datetime.mk 2024 2 12)
                               (db.mk [mk_row 1 7 "Maria" 14 2 None None] 1))))
  = 1.
Proof.
  apply (daily_check_frame (fun _ _ _ => true) (datetime.mk 2024 2 12)
                           (db.mk [mk_row 1 7 "Maria" 14 2 None None] 1)).
  wf_rows.
Defined.

Lemma judge_notified_not_due (T : datetime.date) (r : row)
      (occ o : datetime.date) (dl : Z) :
  next_occurrence (day r) (month r) T = Ok occ ->
  judge T (notified r (datetime.year occ)) <> Due o dl.
Proof.
  intros Ho Hj. apply judge_due_inv in Hj as (Ho' & _ & _ & Hl).
  cbn [notified day month last_notified_year] in *.
  rewrite Ho in Ho'. injection Ho' as <-. apply Hl. reflexivity.
Qed.

(** When the sweep ends without an exception, a row that is due (its
    next occurrence at most [DAYS_BEFORE] days away and not yet marked
    for that year) gets exactly one call, to its owner, with its
    reminder.  If the call is delivered the row is marked with the
    year of the occurrence and a second sweep on the same day makes no
    call for it; if not, the row stays as it was. *)
Theorem daily_check_notifies_once
        (D : transport) (T : datetime.date) (s : t) (r : row)
        (occ : datetime.date) :
  wf s -> fst (daily_check D T s) = Ok tt ->
  In r (rows s) -> next_occurrence (day r) (month r) T = Ok occ ->
  0 <= datetime.sub_days occ T <= DAYS_BEFORE ->
  last_notified_year r <> Some (datetime.year occ) ->
  let w := snd (daily_check D T s) in
  exists e,
    calls_for (id r) (sent w) = [e]
    /\ ev_chat e = user_id r
    /\ ev_text e = reminder_text (name r) occ (datetime.sub_days occ T)
    /\ (ev_ok e = true ->
        In (notified r (datetime.year occ)) (rows (store w))
        /\ forall D', calls_for (id r)
                                (sent (snd (daily_check D' T (store w)))) = [])
    /\ (ev_ok e = false -> In r (rows (store w))).
Proof.
  intros Hw Hok Hr Ho Hd Hl. cbv zeta.
  pose proof (dues_ids T s Hw) as Hnd.
  rewrite daily_check_plan in * by exact Hw. cbn [fst snd sent store] in *.
  pose proof (judge_due T r occ Ho Hd Hl) as Hj.
  pose proof (plan_complete T _ (user_id r) r occ _ Hok (worklist_all s r Hr) Hj)
    as Hdue. fold (dues T s) in Hdue.
  destruct (due_delivered D 0 _ _ Hdue) as (e & He & Hid & Hc & Ht).
  cbn [due_row due_chat] in Hid, Hc.
  assert (Hnde : NoDup (map ev_id (deliveries D 0 (dues T s))))
    by (rewrite deliveries_ids; exact Hnd).
  exists e. split; [apply calls_for_one; auto|].
  split; [exact Hc|]. split; [exact Ht|]. split.
  - intros Hsent.
    pose proof (delivered_marks D 0 _ _ e Hnd Hdue He Hid Hsent) as Hm.
    cbn [due_row due_occ] in Hm.
    assert (Hin : In (notified r (datetime.year occ))
                     (rows (marked (marks D 0 (dues T s)) s))).
    { apply marked_this; auto. apply marks_ids, Hnd. }
    split; [exact Hin|]. intros D'.
    assert (Hw' : wf (marked (marks D 0 (dues T s)) s))
      by (apply wf_marked, Hw).
    rewrite daily_check_plan by exact Hw'. cbn [snd sent].
    apply calls_for_none. intros e' He' Hid'.
    apply deliveries_due in He' as (d' & Hd' & Hid2 & _).
    apply dues_rows in Hd' as (Hr' & _ & Hj').
    assert (due_row d' = notified r (datetime.year occ)).
    { destruct Hw' as [Hu _].
      apply (unique_rows_same_id (rows (marked (marks D 0 (dues T s)) s)));
        auto.
      cbn [notified id]. congruence. }
    rewrite H in Hj'. exact (judge_notified_not_due T r occ _ _ Ho Hj').
  - intros Hfail. apply marked_other; [exact Hr|].
    intros Hin. apply in_map_iff in Hin as ([i y] & Ei & Hm).
    cbn in Ei. subst i.
    apply marks_delivered in Hm as (d' & e' & _ & He' & Hid' & Hok' & Hi & _).
    assert (e' = e).
    { apply (NoDup_map_eq ev_id (deliveries D 0 (dues T s))); auto.
      congruence. }
    subst e'. congruence.
Qed.

Lemma daily_check_notifies_once_witness :
  let s := db.mk [mk_row 1 7 "Maria" 14 2 None None] 1 in
  let T := datetime.mk 2024 2 11 in
  exists e,
    calls_for 1 (sent (snd (daily_check (fun _ _ _ => true) T s))) = [e]
    /\ ev_chat e = 7.
Proof.
  intros s T.
  destruct (daily_check_notifies_once
              (fun _ _ _ => true) T s (mk_row 1 7 "Maria" 14 2 None None)
              (datetime.mk 2024 2 14)) as (e & H1 & H2 & _).
  - wf_rows.
  - reflexivity.
  - left. reflexivity.
  - reflexivity.
  - vm_compute. split; discriminate.
  - discriminate.
  - exists e. split; [exact H1 | exact H2].
Defined.

(** After a sweep that ended without an exception and whose calls
    were all delivered, a second sweep on the same day makes no call
    at all, whatever the transport. *)
Theorem daily_check_twice_silent
        (D D' : transport) (T : datetime.date) (s : t) :
  wf s -> fst (daily_check D T s) = Ok tt ->
  (forall e, In e (sent (snd (daily_check D T s))) -> ev_ok e = true) ->
  sent (snd (daily_check D' T (store (snd (daily_check D T s))))) = [].
Proof.
  intros Hw Hok Hall.
  pose proof (dues_ids T s Hw) as Hnd.
  rewrite (daily_check_plan D) in * by exact Hw.
  cbn [fst snd sent store] in *.
  set (ms := marks D 0 (dues T s)) in *.
  assert (Hw' : wf (marked ms s)) by (apply wf_marked, Hw).
  rewrite daily_check_plan by exact Hw'. cbn [snd sent].
  destruct (deliveries D' 0 (dues T (marked ms s))) as [|e' l] eqn:E;
    [reflexivity|exfalso].
  assert (He' : In e' (deliveries D' 0 (dues T (marked ms s))))
    by (rewrite E; left; reflexivity).
  clear E. apply deliveries_due in He' as (d' & Hd' & _).
  apply dues_rows in Hd' as (Hr' & _ & Hj').
  apply marked_rows in Hr' as (r & Hr & [[Er Hn]|(y & Hy & Er)]).
  - rewrite Er in Hj'.
    pose proof (plan_complete T _ (user_id r) r _ _ Hok (worklist_all s r Hr) Hj')
      as Hdue. fold (dues T s) in Hdue.
    destruct (due_delivered D 0 _ _ Hdue) as (e & He & Hid & _).
    pose proof (delivered_marks D 0 _ _ e Hnd Hdue He Hid (Hall e He)) as Hm.
    apply Hn. apply (in_map fst) in Hm. exact Hm.
  - unfold ms in Hy.
    apply marks_delivered in Hy as (d & e & Hd & _ & _ & _ & Hid & ->).
    apply dues_rows in Hd as (Hrd & _ & Hjd).
    assert (due_row d = r).
    { destruct Hw as [Hu _]. apply (unique_rows_same_id (rows s)); auto. }
    rewrite H in Hjd. apply judge_due_inv in Hjd as (Ho & _).
    rewrite Er in Hj'. exact (judge_notified_not_due T r _ _ _ Ho Hj').
Qed.

Lemma daily_check_twice_silent_witness :
  let s := db.mk [mk_row 1 7 "Maria" 14 2 None None] 1 in
  let T := datetime.mk 2024 2 11 in
  sent (snd (daily_check (fun _ _ _ => false) T
                         (store (snd (daily_check (fun _ _ _ => true) T s)))))
  = [].
Proof.
  intros s T. apply daily_check_twice_silent.
  - wf_rows.
  - reflexivity.
  - intros e [<-|[]]. reflexivity.
Defined.

End SweepMore.

(** ** The command handlers *)

Section Handlers.

Import db bot.

Lemma upsert_birthday_rows_in (s : t) (u : Z) (n : string) (d m : Z)
      (y : option Z) (r : row) :
  In r (rows (upsert_birthday s u n d m y)) ->
  (exists r0, In r0 (rows s) /\ (r = r0 \/ r = do_update d m y r0))
  \/ (name r = n /\ day r = d /\ month r = m /\ year r = y).
Proof.
  unfold upsert_birthday.
  destruct (existsb (same_key u n) (rows s)); cbn [rows].
  - intros H. apply in_map_iff in H as (r0 & <- & Hr0). left. exists r0.
    destruct (same_key u n r0); auto.
  - intros H. apply in_app_or in H as [H|[<-|[]]]; [left; eauto|].
    right. cbn. auto.
Qed.

Lemma clean_upsert_birthday (s : t) (u : Z) (n : string) (d m : Z)
      (y : option Z) :
  clean s -> n <> "" -> accepted d m y ->
  clean (upsert_birthday s u n d m y).
Proof.
  intros Hc Hn Ha r Hr.
  apply upsert_birthday_rows_in in Hr
    as [(r0 & Hr0 & [->| ->])|(-> & -> & -> & ->)]; auto.
  destruct (Hc r0 Hr0) as [H1 _]. cbn. auto.
Qed.

Lemma clean_delete_birthday (s : t) (u : Z) (n : string) :
  clean s -> clean (fst (delete_birthday s u n)).
Proof.
  intros Hc r Hr. cbn in Hr. apply filter_In in Hr as [Hr _]. auto.
Qed.

(** The commands store nothing but what [parse_date] accepted, under a
    name that is not empty: if every row of the table has a name and an
    accepted date, so has every row after [add_cmd], after
    [delete_cmd] and after the sweep. *)
Theorem commands_keep_rows_clean (args : list string) (u : Z) (s : t) :
  clean s ->
  clean (fst (add_cmd args u s))
  /\ clean (fst (delete_cmd args u s))
  /\ (wf s -> forall D T, clean (store (snd (daily_check D T s)))).
Proof.
  intros Hc. split; [|split].
  - unfold add_cmd. destruct args as [|a0 [|a1 rest]]; try exact Hc.
    cbv zeta. destruct (py.strip a0) as [|c n] eqn:En; [exact Hc|].
    destruct (parse_date (py.strip a1)) as [[[d m] y]|e] eqn:Ep; [|exact Hc].
    cbn [fst]. apply clean_upsert_birthday; [exact Hc | discriminate |].
    eapply parse_date_ok_accepted; eauto.
  - unfold delete_cmd. destruct args as [|a0 rest]; [exact Hc|].
    cbv zeta. destruct (py.strip a0) as [|c n] eqn:En; [exact Hc|].
    destruct (delete_birthday s u (String c n)) as [s' k] eqn:Ed.
    assert (Hs' : clean s').
    { replace s' with (fst (delete_birthday s u (String c n)))
        by (rewrite Ed; reflexivity).
      apply clean_delete_birthday, Hc. }
    destruct (k =? 0); exact Hs'.
  - intros Hw D T. rewrite daily_check_plan by exact Hw. cbn [snd store].
    intros r' Hr'.
    apply marked_rows in Hr' as (r & Hr & [[-> _]|(y & _ & ->)]); auto.
    exact (Hc r Hr).
Qed.

Lemma commands_keep_rows_clean_witness :
  clean (fst (add_cmd ["Ann"; "29.02"] 7 init_db)).
Proof.
  apply (commands_keep_rows_clean ["Ann"; "29.02"] 7 init_db).
  intros r [].
Defined.

Lemma parse_date_strip (raw : string) :
  parse_date (py.strip raw) = parse_date raw.
Proof. unfold parse_date. rewrite strip_idempotent. reflexivity. Qed.

(** [add_cmd] on a name that is not blank and a date that
    [parse_date] accepts upserts the stripped name with the parsed
    date for the sender and confirms with the date as [shown]; the
    sender's list then holds that date under that name (up to
    ASCII case). *)
Theorem add_cmd_stores (a0 a1 : string) (rest : list string) (u : Z) (s : t)
        (d m : Z) (y : option Z) :
  wf s -> py.strip a0 <> "" -> parse_date a1 = Ok (d, m, y) ->
  add_cmd (a0 :: a1 :: rest) u s
  = (upsert_birthday s u (py.strip a0) d m y,
     "✅ Сохранил: " +++ py.strip a0 +++ " — " +++ shown d m y)
  /\ exists x, In x (list_birthdays (fst (add_cmd (a0 :: a1 :: rest) u s)) u)
               /\ LOWER (s_name x) = LOWER (py.strip a0)
               /\ s_day x = d /\ s_month x = m /\ s_year x = y.
Proof.
  intros Hw Hn Hp.
  assert (E : add_cmd (a0 :: a1 :: rest) u s
              = (upsert_birthday s u (py.strip a0) d m y,
                 "✅ Сохранил: " +++ py.strip a0 +++ " — " +++ shown d m y)).
  { unfold add_cmd. cbv zeta. rewrite parse_date_strip, Hp.
    destruct (py.strip a0); [contradiction | reflexivity]. }
  split; [exact E|]. rewrite E. cbn [fst].
  apply upsert_birthday_listed, Hw.
Qed.

Lemma add_cmd_stores_witness :
  add_cmd ["Ann"; " 14.02.2004 "] 7 init_db
  = (upsert_birthday init_db 7 "Ann" 14 2 (Some 2004),
     "✅ Сохранил: Ann — 14.02.2004").
Proof.
  apply (add_cmd_stores "Ann" " 14.02.2004 " [] 7 init_db 14 2 (Some 2004)).
  - apply wf_init_db.
  - discriminate.
  - reflexivity.
Defined.

(** [add_cmd] leaves the table as it is when it answers with the usage
    text, with the complaint about an empty name or with the complaint
    about the date: fewer than two words, a blank name, or a date that
    [parse_date] refuses. *)
Theorem add_cmd_refuses (args : list string) (u : Z) (s : t) :
  (List.length args < 2)%nat
  \/ (exists a0 a1 rest, args = a0 :: a1 :: rest
                         /\ (py.strip a0 = ""
                             \/ exists e, parse_date a1 = Raise e)) ->
  fst (add_cmd args u s) = s
  /\ (snd (add_cmd args u s) = add_usage
      \/ snd (add_cmd args u s) = empty_name
      \/ snd (add_cmd args u s) = bad_date).
Proof.
  intros [Hl|(a0 & a1 & rest & -> & H)].
  - destruct args as [|a0 [|a1 rest]]; cbn in Hl; try lia; cbn; auto.
  - unfold add_cmd. cbv zeta. rewrite parse_date_strip.
    destruct (py.strip a0) as [|c n]; [cbn; auto|].
    destruct H as [H|[e He]]; [discriminate|]. rewrite He. cbn. auto.
Qed.

Lemma add_cmd_refuses_witness :
  fst (add_cmd ["Ann"; "31.02"] 7 init_db) = init_db.
Proof.
  apply (add_cmd_refuses ["Ann"; "31.02"] 7 init_db).
  right. exists "Ann", "31.02", []. split; [reflexivity|].
  right. exists ValueError. reflexivity.
Defined.

(** [delete_cmd] answers that it deleted the name exactly when a row
    of the sender answered to it up to the case of the ASCII letters,
    and then those rows are gone; otherwise it answers that it found
    nothing and the table is as before.  So with "Маша" stored,
    [/delete МАША] finds nothing. *)
Theorem delete_cmd_reports (a0 : string) (rest : list string) (u : Z)
        (s : t) :
  py.strip a0 <> "" ->
  (existsb (same_key u (py.strip a0)) (rows s) = true ->
   delete_cmd (a0 :: rest) u s
   = (fst (delete_birthday s u (py.strip a0)),
      "🗑️ Удалил: " +++ py.strip a0))
  /\ (existsb (same_key u (py.strip a0)) (rows s) = false ->
      delete_cmd (a0 :: rest) u s
      = (s, "Не нашёл «" +++ py.strip a0
            +++ "». Проверь имя или посмотри /list."))
  /\ delete_cmd ["МАША"] 7 (db.mk [mk_row 1 7 "Маша" 14 2 None None] 1)
     = (db.mk [mk_row 1 7 "Маша" 14 2 None None] 1,
        "Не нашёл «МАША». Проверь имя или посмотри /list.").
Proof.
  intros Hn. unfold delete_cmd at 1 2. cbv zeta.
  destruct (py.strip a0) as [|c n] eqn:En; [contradiction|].
  set (nm := String c n). unfold delete_birthday.
  split; [|split]; [intros He | intros He | reflexivity].
  - apply existsb_exists in He as (r & Hr & Hk).
    assert (Hin : In r (filter (same_key u nm) (rows s)))
      by (apply filter_In; auto).
    destruct (filter (same_key u nm) (rows s)) as [|x l]; [destruct Hin|].
    cbn [List.length]. rewrite Nat2Z.inj_succ.
    replace (Z.succ (Z.of_nat (List.length l)) =? 0) with false
      by (symmetry; apply Z.eqb_neq; lia).
    reflexivity.
  - rewrite (filter_none _ _ He). cbn [List.length Z.of_nat Z.eqb].
    f_equal. destruct s as [rs q]. cbn [rows seq] in *. f_equal.
    apply filter_all. intros r Hr.
    destruct (same_key u nm r) eqn:E; [|reflexivity].
    assert (existsb (same_key u nm) rs = true)
      by (apply existsb_exists; eauto).
    congruence.
Qed.

Lemma delete_cmd_reports_witness :
  delete_cmd ["ann"] 7 (upsert_birthday init_db 7 "Ann" 14 2 None)
  = (fst (delete_birthday (upsert_birthday init_db 7 "Ann" 14 2 None) 7 "ann"),
     "🗑️ Удалил: ann").
Proof.
  apply (delete_cmd_reports "ann" [] 7
                            (upsert_birthday init_db 7 "Ann" 14 2 None)).
  - discriminate.
  - reflexivity.
Defined.

(** *** [list_cmd] *)

Lemma candidate_of_done (T : datetime.date) (it : summary) (c : candidate) :
  candidate_of T it = Done c ->
  exists occ, next_occurrence (s_day it) (s_month it) T = Ok occ
              /\ c = (datetime.sub_days occ T, s_name it, it).
Proof.
  unfold candidate_of.
  destruct (next_occurrence (s_day it) (s_month it) T) as [occ|e];
    [|discriminate].
  intros [= <-]. eauto.
Qed.

Lemma candidate_lt_days (x y : candidate) (b : bool) :
  candidate_lt x y = Done b ->
  if b then fst (fst x) <= fst (fst y) else fst (fst y) <= fst (fst x).
Proof.
  destruct x as [[dx nx] ix], y as [[dy ny] iy]. unfold candidate_lt.
  cbn [fst].
  destruct (dx =? dy) eqn:Ed; cbn [negb].
  - apply Z.eqb_eq in Ed. intros _. destruct b; lia.
  - apply Z.eqb_neq in Ed. intros [= <-].
    destruct (dx <? dy) eqn:El; unbool; lia.
Qed.

(** What the loop of [min] returns is the candidate of one of the
    items (or the one it started from), and no item has fewer days
    left. *)
Lemma min_from_least (T : datetime.date) (items : list summary)
      (cur c : candidate) :
  min_from T cur items = Done c ->
  (c = cur \/ exists it, In it items /\ candidate_of T it = Done c)
  /\ fst (fst c) <= fst (fst cur)
  /\ forall it, In it items ->
                exists c', candidate_of T it = Done c'
                           /\ fst (fst c) <= fst (fst c').
Proof.
  revert cur. induction items as [|it items IH]; intros cur; cbn [min_from].
  - intros [= <-]. split; [auto|]. split; [lia|]. intros it [].
  - destruct (candidate_of T it) as [ci|f] eqn:Ec; [|discriminate].
    destruct (candidate_lt ci cur) as [b|f] eqn:El; [|discriminate].
    apply candidate_lt_days in El.
    intros H. apply IH in H as (Hc & Hle & Hall).
    split; [|split].
    + destruct Hc as [->|(it' & Hin & Hit')].
      * destruct b; [right; exists it; split; [left; reflexivity | exact Ec]
                    | left; reflexivity].
      * right. exists it'. split; [right; exact Hin | exact Hit'].
    + destruct b; lia.
    + intros it' [<-|Hin]; [|auto].
      exists ci. split; [exact Ec|]. destruct b; lia.
Qed.

Lemma nearest_pick (T : datetime.date) (items : list summary) (diff : Z)
      (nm : string) (it : summary) :
  nearest T items = Done (diff, nm, it) ->
  In it items /\ nm = s_name it
  /\ (exists occ, next_occurrence (s_day it) (s_month it) T = Ok occ
                  /\ diff = datetime.sub_days occ T)
  /\ forall it', In it' items ->
                 exists occ', next_occurrence (s_day it') (s_month it') T
                              = Ok occ'
                              /\ diff <= datetime.sub_days occ' T.
Proof.
  unfold nearest. destruct items as [|it0 items]; [discriminate|].
  destruct (candidate_of T it0) as [c0|f] eqn:E0; [|discriminate].
  intros H. apply min_from_least in H as (Hc & Hle & Hall).
  assert (Hsel : exists x, In x (it0 :: items)
                           /\ candidate_of T x = Done (diff, nm, it)).
  { destruct Hc as [->|(x & Hx & Hcx)]; [exists it0 | exists x]; cbn; auto. }
  destruct Hsel as (x & Hx & Hcx).
  apply candidate_of_done in Hcx as (occ & Ho & [= -> -> ->]).
  split; [exact Hx|]. split; [reflexivity|]. split; [eauto|].
  intros it' [<-|Hin].
  - apply candidate_of_done in E0 as (occ0 & Ho0 & ->). cbn [fst] in Hle.
    eauto.
  - destruct (Hall it' Hin) as (c' & Hc' & Hle').
    apply candidate_of_done in Hc' as (occ' & Ho' & ->). cbn [fst] in Hle'.
    eauto.
Qed.

(** The birthday [list_cmd] announces as the nearest is one of the
    items listed, with its own name and days left, and no item listed
    has fewer days left. *)
Theorem nearest_least (T : datetime.date) (items : list summary) (diff : Z)
        (nm : string) (it : summary) :
  nearest T items = Done (diff, nm, it) ->
  In it items /\ nm = s_name it
  /\ (exists occ, next_occurrence (s_day it) (s_month it) T = Ok occ
                  /\ diff = datetime.sub_days occ T)
  /\ forall it', In it' items ->
                 exists occ', next_occurrence (s_day it') (s_month it') T
                              = Ok occ'
                              /\ diff <= datetime.sub_days occ' T.
Proof. apply nearest_pick. Qed.

Lemma nearest_least_witness :
  let items := list_birthdays
                 (upsert_birthday
                    (upsert_birthday init_db 7 "Ann" 14 2 None)
                    7 "Bob" 16 2 None) 7 in
  exists occ', next_occurrence 14 2 (datetime.mk 2024 2 15) = Ok occ'
               /\ 1 <= datetime.sub_days occ' (datetime.mk 2024 2 15).
Proof.
  intros items.
  apply (proj2 (proj2 (proj2
           (nearest_least (datetime.mk 2024 2 15) items 1 "Bob"
                          (mk_summary "Bob" 16 2 None) eq_refl)))
           (mk_summary "Ann" 14 2 None)).
  left. reflexivity.
Defined.

Lemma min_from_fails (T : datetime.date) (items : list summary)
      (cur : candidate) (it : summary) (f : failure) :
  In it items -> candidate_of T it = Fails f ->
  exists f', min_from T cur items = Fails f'.
Proof.
  revert cur. induction items as [|x items IH]; intros cur; [intros []|].
  intros [->|Hin] Hf; cbn [min_from].
  - rewrite Hf. eauto.
  - destruct (candidate_of T x) as [c|f0]; [|eauto].
    destruct (candidate_lt c cur) as [b|f0]; [|eauto].
    apply IH; auto.
Qed.

(** [list_cmd] fails for an owner as soon as [next_occurrence] raises
    on one of the owner's rows: with a 29 February stored, the list
    cannot be shown in a year that is not a leap year. *)
Theorem list_cmd_fails (T : datetime.date) (u : Z) (s : t) (r : row)
        (e : exn) :
  In r (rows s) -> user_id r = u ->
  next_occurrence (day r) (month r) T = Raise e ->
  exists f, list_cmd T u s = Fails f.
Proof.
  intros Hr Hu He.
  assert (Hin : In (summary_of r) (list_birthdays s u)).
  { unfold list_birthdays. apply in_map.
    apply (Permutation_in _ (order_by_perm _)).
    apply filter_In. split; [exact Hr | apply Z.eqb_eq, Hu]. }
  assert (Hf : candidate_of T (summary_of r) = Fails (Raised e)).
  { unfold candidate_of. cbn [summary_of s_day s_month]. rewrite He.
    reflexivity. }
  unfold list_cmd. cbv zeta.
  destruct (list_birthdays s u) as [|it0 items] eqn:El; [destruct Hin|].
  assert (Hn : exists f, nearest T (it0 :: items) = Fails f).
  { unfold nearest. destruct Hin as [->|Hin].
    - rewrite Hf. eauto.
    - destruct (candidate_of T it0) as [c0|f0]; [|eauto].
      eapply min_from_fails; eauto. }
  destruct Hn as [f Hn]. rewrite Hn. eauto.
Qed.

Lemma list_cmd_fails_witness :
  exists f, list_cmd (datetime.mk 2023 6 1) 7
                     (upsert_birthday init_db 7 "Ann" 29 2 None)
            = Fails f.
Proof.
  apply (list_cmd_fails (datetime.mk 2023 6 1) 7
                        (upsert_birthday init_db 7 "Ann" 29 2 None)
                        (mk_row 1 7 "Ann" 29 2 None None) ValueError).
  - left. reflexivity.
  - reflexivity.
  - reflexivity.
Defined.

Lemma summary_eqb_refl (x : summary) : summary_eqb x x = true.
Proof.
  unfold summary_eqb. rewrite String.eqb_refl, !Z.eqb_refl.
  destruct (s_year x); cbn; [apply Z.eqb_refl | reflexivity].
Qed.

(** In a table that meets its constraints the items listed for an
    owner have different names. *)
Lemma list_birthdays_names (s : t) (u : Z) (x y : summary) :
  wf s -> In x (list_birthdays s u) -> In y (list_birthdays s u) ->
  s_name x = s_name y -> x = y.
Proof.
  intros [Hu _] Hx Hy Hn. unfold list_birthdays in *.
  apply in_map_iff in Hx as (rx & <- & Hx).
  apply in_map_iff in Hy as (ry & <- & Hy).
  apply (Permutation_in _ (Permutation_sym (order_by_perm _))) in Hx, Hy.
  apply filter_In in Hx as [Hx Ex]. apply filter_In in Hy as [Hy Ey].
  apply Z.eqb_eq in Ex, Ey. cbn in Hn.
  assert (rx = ry).
  { apply (unique_rows_same_key (rows s)); auto.
    apply same_key_iff. split; [congruence | rewrite Hn; reflexivity]. }
  congruence.
Qed.

Lemma min_from_done (T : datetime.date) (P : summary -> Prop)
      (items : list summary) (d : Z) (ic : summary) :
  (forall x y, P x -> P y -> s_name x = s_name y -> x = y) ->
  P ic -> (forall it, In it items -> P it) ->
  (forall it, In it items ->
              exists occ, next_occurrence (s_day it) (s_month it) T = Ok occ) ->
  exists c, min_from T (d, s_name ic, ic) items = Done c.
Proof.
  intros Hinj. revert d ic.
  induction items as [|it items IH]; intros d ic Hic HP Hok; cbn [min_from];
    [eauto|].
  destruct (Hok it (or_introl eq_refl)) as [occ Ho].
  unfold candidate_of. rewrite Ho.
  assert (Hlt : exists b, candidate_lt (datetime.sub_days occ T, s_name it, it)
                                       (d, s_name ic, ic) = Done b).
  { unfold candidate_lt.
    destruct (negb (datetime.sub_days occ T =? d)); [eauto|].
    destruct (String.eqb (s_name it) (s_name ic)) eqn:En; cbn [negb]; [|eauto].
    apply String.eqb_eq in En.
    rewrite (Hinj it ic (HP it (or_introl eq_refl)) Hic En).
    rewrite summary_eqb_refl. eauto. }
  destruct Hlt as [b ->].
  assert (HP' : forall x, In x items -> P x)
    by (intros x Hx; apply HP; right; exact Hx).
  assert (Hok' : forall x, In x items ->
            exists occ, next_occurrence (s_day x) (s_month x) T = Ok occ)
    by (intros x Hx; apply Hok; right; exact Hx).
  destruct b; apply IH; auto. apply HP. left. reflexivity.
Qed.

(** [list_cmd] answers with a text whenever the table meets its
    constraints and [next_occurrence] returns for each of the owner's
    rows: the search for the nearest birthday never has to compare two
    dictionaries. *)
Theorem list_cmd_replies (T : datetime.date) (u : Z) (s : t) :
  wf s ->
  (forall r, In r (rows s) -> user_id r = u ->
             exists occ, next_occurrence (day r) (month r) T = Ok occ) ->
  exists text, list_cmd T u s = Done text.
Proof.
  intros Hw Hok.
  assert (Hitems : forall it, In it (list_birthdays s u) ->
             exists occ, next_occurrence (s_day it) (s_month it) T = Ok occ).
  { intros it Hit. unfold list_birthdays in Hit.
    apply in_map_iff in Hit as (r & <- & Hr).
    apply (Permutation_in _ (Permutation_sym (order_by_perm _))) in Hr.
    apply filter_In in Hr as [Hr Hu]. apply Z.eqb_eq in Hu.
    cbn. auto. }
  pose proof (list_birthdays_names s u) as Hinj.
  unfold list_cmd. cbv zeta.
  destruct (list_birthdays s u) as [|it0 items] eqn:El; [eauto|].
  assert (Hn : exists c, nearest T (it0 :: items) = Done c).
  { unfold nearest. destruct (Hitems it0 (or_introl eq_refl)) as [occ0 Ho0].
    unfold candidate_of at 1. rewrite Ho0.
    apply (min_from_done T (fun x => In x (it0 :: items))).
    - intros x y Hx Hy. apply Hinj; auto.
    - left. reflexivity.
    - intros it Hit. right. exact Hit.
    - intros it Hit. apply Hitems. right. exact Hit. }
  destruct Hn as [[[diff nm] it] Hn]. rewrite Hn.
  apply nearest_pick in Hn as (_ & _ & (occ & Ho & _) & _).
  rewrite Ho. eauto.
Qed.

Lemma list_cmd_replies_witness :
  exists text, list_cmd (datetime.mk 2024 2 15) 7
                        (upsert_birthday init_db 7 "Ann" 14 2 None)
               = Done text.
Proof.
  apply list_cmd_replies.
  - apply wf_upsert_birthday, wf_init_db.
  - intros r [<-|[]] _. eexists. reflexivity.
Defined.

End Handlers.
